(** * geminiService.ts: the retrying call executor and the four prompt operations

    A shallow embedding of [src/geminiService.ts].  The module is asynchronous
    JavaScript; every [await] is sequential, so a call path is modelled as a
    state-and-exception computation over a [World] that records the calls made
    to the upstream service and the console and timer effects.

    The JavaScript run time the module relies on (property reads, strict
    equality, truthiness, [String.prototype.includes], [JSON.stringify],
    [JSON.parse]) is modelled first, then the module itself, then the
    vocabulary of the statements, then the statements.

    What the model takes for granted:
    - [maxRetries] and [initialDelay] are integers (the retry policy of the
      specification), and delays are exact integers;
    - the promise an [apiCall] returns settles: it resolves or rejects;
    - [console.warn], [console.error], [sleep] and the [GoogleGenAI]
      constructor, called with a key, do not throw;
    - thrown values are [undefined], [null], booleans, numbers, strings,
      arrays, plain objects and [Error] instances. *)

From Stdlib Require Import ZArith List String Ascii Bool Lia.
From Stdlib Require Import DecimalString.
From Equations Require Import Equations.
Import ListNotations.
Local Open Scope string_scope.
Local Open Scope Z_scope.

Set Warnings "-register-all".

(* ===================================================================== *)
(** ** JavaScript values *)
(* ===================================================================== *)

Module Js.

(** A finite number [mant * 10 ^ exp10].  A double is identified with the
    shortest decimal that denotes it (the one [Number::toString] prints);
    [NaN], the infinities and the sign of zero are outside the model. *)
Record Number : Set := mkNumber { mant : Z; exp10 : Z }.

Definition int (z : Z) : Number := mkNumber z 0.

(** Strings are the UTF-8 bytes of the text.  Searching an ASCII needle in the
    bytes agrees with searching it in the UTF-16 code units. *)
Inductive Val : Set :=
| Undefined
| Null
| Bool (b : bool)
| Num (n : Number)
| Str (s : string)
| Arr (elems : list Val)
| Obj (props : list (string * Val))
    (* a plain object: its own enumerable properties, distinct keys, in the
       order they were created (keys that are array indices are not moved
       to the front) *)
| Err (message : string) (props : list (string * Val)).
    (* an [Error] instance: [message] is an own property that is not
       enumerable; [props] are the enumerable ones added to it *)

(** Completion of an expression or of a call: a value or a thrown value. *)
Inductive Res (A : Type) : Type :=
| Ok (a : A)
| Threw (e : Val).
Arguments Ok {A} a.
Arguments Threw {A} e.

(** The text of a [TypeError] is implementation defined; V8's is used. *)
Definition TypeError (msg : string) : Val :=
  Err msg [].
Definition SyntaxError (msg : string) : Val :=
  Err msg [].

Definition nullish (v : Val) : bool :=
  match v with
  | Undefined | Null => true
  | _ => false
  end.

(** ** Numbers *)

(** [x = mant * 10 ^ exp10] with the trailing zeros of [mant] moved into the
    exponent; [fuel] bounds the number of digits. *)
Fixpoint strip_zeros (fuel : nat) (m e : Z) : Z * Z :=
  match fuel with
  | O => (m, e)
  | S fuel' =>
      if (m mod 10 =? 0) then strip_zeros fuel' (m / 10) (e + 1) else (m, e)
  end.

Definition normalize (x : Number) : Number :=
  if mant x =? 0 then mkNumber 0 0
  else let '(m, e) := strip_zeros (S (Z.to_nat (Z.log2 (Z.abs (mant x)))))
                                  (Z.abs (mant x)) (exp10 x) in
       mkNumber (Z.sgn (mant x) * m) e.

Definition num_eqb (x y : Number) : bool :=
  let x' := normalize x in
  let y' := normalize y in
  (mant x' =? mant y') && (exp10 x' =? exp10 y').

Definition digits (z : Z) : string :=
  NilZero.string_of_uint (N.to_uint (Z.to_N z)).

Fixpoint zeros (n : nat) : string :=
  match n with
  | O => ""
  | S n' => String "0" (zeros n')
  end.

Definition take (n : nat) (s : string) : string := substring 0 n s.
Definition drop (n : nat) (s : string) : string :=
  substring n (String.length s - n) s.

(** [Number::toString] (radix 10) of ECMA-262: [s] holds the [k] significant
    digits and [n] places the decimal point. *)
Definition number_to_string (x : Number) : string :=
  let x' := normalize x in
  if mant x' =? 0 then "0"
  else
    let sign := if mant x' <? 0 then "-" else "" in
    let s := digits (Z.abs (mant x')) in
    let k := Z.of_nat (String.length s) in
    let n := k + exp10 x' in
    sign ++
    (if (k <=? n) && (n <=? 21) then
       s ++ zeros (Z.to_nat (n - k))
     else if (0 <? n) && (n <=? 21) then
       take (Z.to_nat n) s ++ "." ++ drop (Z.to_nat n) s
     else if (-6 <? n) && (n <=? 0) then
       "0." ++ zeros (Z.to_nat (- n)) ++ s
     else
       let e := n - 1 in
       let es := (if e <? 0 then "-" else "+") ++ digits (Z.abs e) in
       if k =? 1 then s ++ "e" ++ es
       else take 1 s ++ "." ++ drop 1 s ++ "e" ++ es).

(** ** Strings *)

(** [s.includes(needle)] *)
Fixpoint includes (s needle : string) : bool :=
  prefix needle s
  || match s with
     | EmptyString => false
     | String _ s' => includes s' needle
     end.

Definition hex_digit (n : N) : ascii :=
  match n with
  | 0 => "0" | 1 => "1" | 2 => "2" | 3 => "3" | 4 => "4" | 5 => "5"
  | 6 => "6" | 7 => "7" | 8 => "8" | 9 => "9" | 10 => "a" | 11 => "b"
  | 12 => "c" | 13 => "d" | 14 => "e" | _ => "f"
  end%N%char.

Definition dquote : ascii := "034".

(** One character of [QuoteJSONString]. *)
Definition quote_char (c : ascii) : string :=
  let n := N_of_ascii c in
  if (n =? 8)%N then "\b"
  else if (n =? 9)%N then "\t"
  else if (n =? 10)%N then "\n"
  else if (n =? 12)%N then "\f"
  else if (n =? 13)%N then "\r"
  else if (n =? 34)%N then String "\" (String dquote "")
  else if (n =? 92)%N then "\\"
  else if (n <? 32)%N then
    "\u00" ++ String (hex_digit (n / 16)) (String (hex_digit (n mod 16)) "")
  else String c "".

Fixpoint quote_body (s : string) : string :=
  match s with
  | EmptyString => ""
  | String c s' => quote_char c ++ quote_body s'
  end.

Definition quote (s : string) : string :=
  String dquote (quote_body s ++ String dquote "").

(** ** [JSON.stringify(value)]

    [None] is the result [undefined].  Array holes and [undefined] elements
    print as [null]; properties whose value is [undefined] are left out.  An
    [Error] instance prints its enumerable properties only.  There are no
    functions in [Val], so no [toJSON] is ever called, and no cyclic value,
    on which [JSON.stringify] would throw. *)
Section Serialize.

Variable serialize : Val -> option string.

Definition element (x : Val) : string :=
  match serialize x with
  | Some s => s
  | None => "null"
  end.

Fixpoint members (ps : list (string * Val)) : list string :=
  match ps with
  | [] => []
  | (k, x) :: ps' =>
      match serialize x with
      | Some s => (quote k ++ ":" ++ s) :: members ps'
      | None => members ps'
      end
  end.

End Serialize.

Fixpoint stringify (v : Val) : option string :=
  match v with
  | Undefined => None
  | Null => Some "null"
  | Bool true => Some "true"
  | Bool false => Some "false"
  | Num n => Some (number_to_string n)
  | Str s => Some (quote s)
  | Arr elems => Some ("[" ++ concat "," (map (element stringify) elems) ++ "]")
  | Obj props => Some ("{" ++ concat "," (members stringify props) ++ "}")
  | Err _ props => Some ("{" ++ concat "," (members stringify props) ++ "}")
  end.

(** ** Property reads *)

Fixpoint lookup (k : string) (ps : list (string * Val)) : option Val :=
  match ps with
  | [] => None
  | (k', x) :: ps' => if String.eqb k k' then Some x else lookup k ps'
  end.

(** [v.k] for a value [v] that is neither [null] nor [undefined] and one of the
    keys the module reads off a thrown value: [status], [code] and [message].
    No built-in prototype defines them, but for the [message] of [Error]
    instances. *)
Definition get_own (v : Val) (k : string) : Val :=
  match v with
  | Obj props =>
      match lookup k props with
      | Some x => x
      | None => Undefined
      end
  | Err message props =>
      match lookup k props with
      | Some x => x
      | None => if String.eqb k "message" then Str message else Undefined
      end
  | _ => Undefined
  end.

(** [v?.k] *)
Definition get_opt (v : Val) (k : string) : Val :=
  if nullish v then Undefined else get_own v k.

(** [x === n] for a number literal [n] *)
Definition strict_eq_num (x : Val) (n : Number) : bool :=
  match x with
  | Num m => num_eqb m n
  | _ => false
  end.

(** [ToBoolean] *)
Definition truthy (v : Val) : bool :=
  match v with
  | Undefined | Null => false
  | Bool b => b
  | Num n => negb (mant n =? 0)
  | Str s => negb (String.eqb s "")
  | Arr _ | Obj _ | Err _ _ => true
  end.

(** [x] is the string [needle] ([SameValueZero] against a string). *)
Definition is_string (needle : string) (x : Val) : bool :=
  match x with
  | Str s => String.eqb s needle
  | _ => false
  end.

(** [m.includes(needle)] for [m] neither [null] nor [undefined]: the string
    method, the array method (membership by [SameValueZero]), and a
    [TypeError] for every other receiver, which has no callable [includes]. *)
Definition call_includes (m : Val) (needle : string) : Res Val :=
  match m with
  | Str s => Ok (Bool (includes s needle))
  | Arr elems => Ok (Bool (existsb (is_string needle) elems))
  | _ => Threw (TypeError "error?.message?.includes is not a function")
  end.

(** [a || b]: [b] is evaluated only when [a] completes with a falsy value. *)
Definition or_else (a b : Res Val) : Res Val :=
  match a with
  | Threw e => Threw e
  | Ok x => if truthy x then Ok x else b
  end.

(** ** [JSON.parse(text)]

    A pushdown recogniser of the JSON grammar that builds the value while it
    reads: one transition per input character, so that parsing is structural
    in the text.  The stack holds the arrays and objects that are still open. *)

Inductive Frame : Set :=
| FArr (rev_elems : list Val)
| FObj (props : list (string * Val)) (key : string).

Inductive StrState : Set :=
| SPlain
| SEscape
| SUnicode (count : nat) (unit : N).

Inductive NumState : Set :=
| NMinus | NZero | NInt | NDot | NFrac | NExp | NExpSign | NExpDigits.

Record NumAcc : Set := mkNumAcc
  { nneg : bool; nmant : Z; nfrac : Z; eneg : bool; nexp : Z }.

Inductive Mode : Set :=
| MValue (first : bool)
| MKey (first : bool)
| MColon (k : string)
| MAfter
| MString (iskey : bool) (rev_chars : list ascii) (high : option N)
          (st : StrState)
| MNumber (acc : NumAcc) (st : NumState)
| MLiteral (rest : string) (v : Val).

Record PState : Set := mkPState
  { stack : list Frame; mode : Mode; result : option Val }.

Definition is_ws (c : ascii) : bool :=
  let n := N_of_ascii c in
  ((n =? 32) || (n =? 9) || (n =? 10) || (n =? 13))%N.

Definition digit_of (c : ascii) : option Z :=
  let n := N_of_ascii c in
  if ((48 <=? n) && (n <=? 57))%N then Some (Z.of_N (n - 48)) else None.

Definition hex_of (c : ascii) : option N :=
  let n := N_of_ascii c in
  if ((48 <=? n) && (n <=? 57))%N then Some (n - 48)%N
  else if ((97 <=? n) && (n <=? 102))%N then Some (n - 87)%N
  else if ((65 <=? n) && (n <=? 70))%N then Some (n - 55)%N
  else None.

(** The bytes of a code point, last byte first (surrogates that stand alone
    get the three-byte form). *)
Definition rev_utf8 (cp : N) : list ascii :=
  let b (n : N) := ascii_of_N n in
  (if cp <? 128 then [b cp]
   else if cp <? 2048 then [b (128 + cp mod 64); b (192 + cp / 64)]
   else if cp <? 65536 then
     [b (128 + cp mod 64); b (128 + (cp / 64) mod 64); b (224 + cp / 4096)]
   else
     [b (128 + cp mod 64); b (128 + (cp / 64) mod 64);
      b (128 + (cp / 4096) mod 64); b (240 + cp / 262144)])%N.

Definition is_high (u : N) : bool := ((55296 <=? u) && (u <=? 56319))%N.
Definition is_low (u : N) : bool := ((56320 <=? u) && (u <=? 57343))%N.

Definition flush (rev_chars : list ascii) (high : option N) : list ascii :=
  match high with
  | Some h => (rev_utf8 h ++ rev_chars)%list
  | None => rev_chars
  end.

(** A [\uXXXX] escape adds one UTF-16 code unit; a high surrogate waits for
    the low one that may follow. *)
Definition add_unit (rev_chars : list ascii) (high : option N) (u : N)
  : list ascii * option N :=
  match high with
  | Some h =>
      if is_low u then
        ((rev_utf8 (65536 + (h - 55296) * 1024 + (u - 56320))%N
          ++ rev_chars)%list, None)
      else if is_high u then ((rev_utf8 h ++ rev_chars)%list, Some u)
      else ((rev_utf8 u ++ rev_utf8 h ++ rev_chars)%list, None)
  | None =>
      if is_high u then (rev_chars, Some u)
      else ((rev_utf8 u ++ rev_chars)%list, None)
  end.

(** Defining a property that exists keeps its place and replaces its value
    (a repeated key: the last value wins). *)
Fixpoint set_prop (k : string) (v : Val) (ps : list (string * Val))
  : list (string * Val) :=
  match ps with
  | [] => [(k, v)]
  | (k', x) :: ps' =>
      if String.eqb k k' then (k', v) :: ps' else (k', x) :: set_prop k v ps'
  end.

Definition number_of (a : NumAcc) : Number :=
  normalize (mkNumber (if nneg a then - nmant a else nmant a)
                      ((if eneg a then - nexp a else nexp a) - nfrac a)).

(** A value is complete: it is the result, or goes into the open container. *)
Definition complete (v : Val) (st : list Frame) : PState :=
  match st with
  | [] => mkPState [] MAfter (Some v)
  | FArr es :: st' => mkPState (FArr (v :: es) :: st') MAfter None
  | FObj ps k :: st' => mkPState (FObj (set_prop k v ps) k :: st') MAfter None
  end.

Definition after_step (c : ascii) (st : list Frame) (r : option Val)
  : option PState :=
  if is_ws c then Some (mkPState st MAfter r)
  else match c, st with
       | ","%char, FArr _ :: _ => Some (mkPState st (MValue false) r)
       | ","%char, FObj _ _ :: _ => Some (mkPState st (MKey false) r)
       | "]"%char, FArr es :: st' => Some (complete (Arr (rev es)) st')
       | "}"%char, FObj ps _ :: st' => Some (complete (Obj ps) st')
       | _, _ => None
       end.

Definition value_step (c : ascii) (first : bool) (st : list Frame)
  : option PState :=
  if is_ws c then Some (mkPState st (MValue first) None)
  else match digit_of c with
  | Some 0 => Some (mkPState st (MNumber (mkNumAcc false 0 0 false 0) NZero) None)
  | Some d => Some (mkPState st (MNumber (mkNumAcc false d 0 false 0) NInt) None)
  | None =>
      match c with
      | "034"%char => Some (mkPState st (MString false [] None SPlain) None)
      | "["%char => Some (mkPState (FArr [] :: st) (MValue true) None)
      | "{"%char => Some (mkPState (FObj [] "" :: st) (MKey true) None)
      | "]"%char =>
          match first, st with
          | true, FArr es :: st' => Some (complete (Arr (rev es)) st')
          | _, _ => None
          end
      | "-"%char =>
          Some (mkPState st (MNumber (mkNumAcc true 0 0 false 0) NMinus) None)
      | "n"%char => Some (mkPState st (MLiteral "ull" Null) None)
      | "t"%char => Some (mkPState st (MLiteral "rue" (Bool true)) None)
      | "f"%char => Some (mkPState st (MLiteral "alse" (Bool false)) None)
      | _ => None
      end
  end.

Definition literal_step (c : ascii) (rest : string) (v : Val) (st : list Frame)
  : option PState :=
  match rest with
  | String c' rest' =>
      if Ascii.eqb c c' then
        match rest' with
        | EmptyString => Some (complete v st)
        | _ => Some (mkPState st (MLiteral rest' v) None)
        end
      else None
  | EmptyString => None
  end.

Definition key_step (c : ascii) (first : bool) (st : list Frame)
  : option PState :=
  if is_ws c then Some (mkPState st (MKey first) None)
  else match c with
       | "034"%char => Some (mkPState st (MString true [] None SPlain) None)
       | "}"%char =>
           match first, st with
           | true, FObj ps _ :: st' => Some (complete (Obj ps) st')
           | _, _ => None
           end
       | _ => None
       end.

Definition colon_step (c : ascii) (k : string) (st : list Frame)
  : option PState :=
  if is_ws c then Some (mkPState st (MColon k) None)
  else match c, st with
       | ":"%char, FObj ps _ :: st' =>
           Some (mkPState (FObj ps k :: st') (MValue false) None)
       | _, _ => None
       end.

Definition string_step (c : ascii) (iskey : bool) (rc : list ascii)
  (high : option N) (ss : StrState) (st : list Frame) : option PState :=
  let plain (x : ascii) :=
    Some (mkPState st (MString iskey (x :: flush rc high) None SPlain) None) in
  match ss with
  | SPlain =>
      match c with
      | "034"%char =>
          let s := string_of_list_ascii (rev (flush rc high)) in
          if iskey then Some (mkPState st (MColon s) None)
          else Some (complete (Str s) st)
      | "\"%char => Some (mkPState st (MString iskey rc high SEscape) None)
      | _ => if (N_of_ascii c <? 32)%N then None else plain c
      end
  | SEscape =>
      match c with
      | "034"%char | "\"%char | "/"%char => plain c
      | "b"%char => plain (ascii_of_N 8)
      | "f"%char => plain (ascii_of_N 12)
      | "n"%char => plain (ascii_of_N 10)
      | "r"%char => plain (ascii_of_N 13)
      | "t"%char => plain (ascii_of_N 9)
      | "u"%char =>
          Some (mkPState st (MString iskey rc high (SUnicode 0 0)) None)
      | _ => None
      end
  | SUnicode count u =>
      match hex_of c with
      | Some d =>
          let u' := (u * 16 + d)%N in
          if Nat.eqb count 3 then
            let '(rc', high') := add_unit rc high u' in
            Some (mkPState st (MString iskey rc' high' SPlain) None)
          else
            Some (mkPState st (MString iskey rc high (SUnicode (S count) u'))
                           None)
      | None => None
      end
  end.

Definition accepting (ns : NumState) : bool :=
  match ns with
  | NZero | NInt | NFrac | NExpDigits => true
  | _ => false
  end.

Definition number_step (c : ascii) (a : NumAcc) (ns : NumState)
  (st : list Frame) : option PState :=
  let go (a' : NumAcc) (ns' : NumState) :=
    Some (mkPState st (MNumber a' ns') None) in
  let finish :=
    let p := complete (Num (number_of a)) st in
    after_step c (stack p) (result p) in
  let is_e := (Ascii.eqb c "e" || Ascii.eqb c "E")%char in
  let is_dot := Ascii.eqb c "."%char in
  let int_digit (d : Z) :=
    mkNumAcc (nneg a) (nmant a * 10 + d) (nfrac a) (eneg a) (nexp a) in
  let frac_digit (d : Z) :=
    mkNumAcc (nneg a) (nmant a * 10 + d) (nfrac a + 1) (eneg a) (nexp a) in
  let exp_digit (d : Z) :=
    mkNumAcc (nneg a) (nmant a) (nfrac a) (eneg a) (nexp a * 10 + d) in
  match ns, digit_of c with
  | NMinus, Some 0 => go a NZero
  | NMinus, Some d => go (int_digit d) NInt
  | NMinus, None => None
  | NZero, _ =>
      if is_dot then go a NDot else if is_e then go a NExp else finish
  | NInt, Some d => go (int_digit d) NInt
  | NInt, None =>
      if is_dot then go a NDot else if is_e then go a NExp else finish
  | NDot, Some d => go (frac_digit d) NFrac
  | NDot, None => None
  | NFrac, Some d => go (frac_digit d) NFrac
  | NFrac, None => if is_e then go a NExp else finish
  | NExp, Some d => go (exp_digit d) NExpDigits
  | NExp, None =>
      if Ascii.eqb c "+"%char then go a NExpSign
      else if Ascii.eqb c "-"%char then
        go (mkNumAcc (nneg a) (nmant a) (nfrac a) true (nexp a)) NExpSign
      else None
  | NExpSign, Some d => go (exp_digit d) NExpDigits
  | NExpSign, None => None
  | NExpDigits, Some d => go (exp_digit d) NExpDigits
  | NExpDigits, None => finish
  end.

Definition step (c : ascii) (p : PState) : option PState :=
  match mode p with
  | MValue first => value_step c first (stack p)
  | MKey first => key_step c first (stack p)
  | MColon k => colon_step c k (stack p)
  | MAfter => after_step c (stack p) (result p)
  | MString iskey rc high ss => string_step c iskey rc high ss (stack p)
  | MNumber a ns => number_step c a ns (stack p)
  | MLiteral rest v => literal_step c rest v (stack p)
  end.

Fixpoint run (text : string) (p : PState) : option PState :=
  match text with
  | EmptyString => Some p
  | String c text' =>
      match step c p with
      | Some p' => run text' p'
      | None => None
      end
  end.

(** At the end of the text the one value must be complete. *)
Definition finish (p : PState) : option Val :=
  match stack p, mode p with
  | [], MAfter => result p
  | [], MNumber a ns =>
      if accepting ns then Some (Num (number_of a)) else None
  | _, _ => None
  end.

Definition parse (text : string) : option Val :=
  match run text (mkPState [] (MValue false) None) with
  | Some p => finish p
  | None => None
  end.

(** [JSON.parse(x)] where [x] is a string or [undefined]: the argument is
    converted to a string first, a [SyntaxError] is thrown on text that is not
    JSON. *)
Definition JSON_parse (x : option string) : Res Val :=
  let text := match x with
              | Some s => s
              | None => "undefined"
              end in
  match parse text with
  | Some v => Ok v
  | None => Threw (SyntaxError "Unexpected token in JSON")
  end.

End Js.

(* ===================================================================== *)
(** ** The world of a call path *)
(* ===================================================================== *)

Import Js.

(** The [responseSchema] of a request. *)
Inductive Schema : Set :=
| SchemaObject (properties : list (string * Schema)) (required : list string)
| SchemaBoolean
| SchemaString (description : option string).

Record Config : Set := mkConfig
  { systemInstruction : string;
    temperature : option Number;
    responseMimeType : option string;
    responseSchema : option Schema }.

Record Request : Set := mkRequest
  { model : string; contents : string; config : Config }.

(** What [generateContent] resolves with; [text] is a string or [undefined]. *)
Record Response : Set := mkResponse { text : option string }.

Inductive Event : Set :=
| EvCall                                   (* an [apiCall] thunk ran *)
| EvRequest (key : string) (r : Request)   (* a request went to the service *)
| EvWarn (msg : string)                    (* [console.warn] *)
| EvError (msg : string) (arg : option Val) (* [console.error] *)
| EvSleep (ms : Z).                        (* [await sleep(ms)] *)

(** [calls] counts the calls that reached the upstream collaborator, [log]
    lists every effect in order. *)
Record World : Set := mkWorld { calls : nat; log : list Event }.

Definition emit (ev : Event) (w : World) : World :=
  mkWorld (calls w) (log w ++ [ev]).

(** Settlement of the promise an [apiCall] returns. *)
Inductive Outcome (A : Type) : Type :=
| Resolve (v : A)
| Reject (error : Val).
Arguments Resolve {A} v.
Arguments Reject {A} error.

Definition ApiCall (A : Type) : Type := World -> Outcome A * World.

(** A thunk whose [n]-th run (counted over the whole world) settles as
    [outs n] and leaves [ev] in the log. *)
Definition upstream {A : Type} (outs : nat -> Outcome A) (ev : Event)
  : ApiCall A :=
  fun w => (outs (calls w), mkWorld (S (calls w)) (log w ++ [ev])).

Definition scripted {A : Type} (outs : nat -> Outcome A) : ApiCall A :=
  upstream outs EvCall.

(** State and exception monad of the call paths. *)
Definition M (A : Type) : Type := World -> Res A * World.

Definition ret {A : Type} (a : A) : M A := fun w => (Ok a, w).

Definition bind {A B : Type} (m : M A) (k : A -> M B) : M B :=
  fun w =>
    match m w with
    | (Ok a, w') => k a w'
    | (Threw e, w') => (Threw e, w')
    end.

(** A completion that is already there. *)
Definition lift {A : Type} (r : Res A) : M A := fun w => (r, w).

(** [try { body } catch (error) { handler }] *)
Definition try_catch {A : Type} (body : M A) (handler : Val -> M A) : M A :=
  fun w =>
    match body w with
    | (Ok a, w') => (Ok a, w')
    | (Threw e, w') => handler e w'
    end.

Declare Scope js_scope.
Delimit Scope js_scope with js.
Notation "x <- m ;; k" := (bind m (fun x => k))
  (at level 61, m at next level, right associativity) : js_scope.
Notation "m ;; k" := (bind m (fun _ => k))
  (at level 61, right associativity) : js_scope.
Notation "a ||| b" := (or_else a b)
  (at level 50, left associativity) : js_scope.

Definition console_error (msg : string) (arg : option Val) : M unit :=
  fun w => (Ok tt, emit (EvError msg arg) w).

Definition console_warn (msg : string) (w : World) : World :=
  emit (EvWarn msg) w.

(** [const sleep = (ms) => new Promise(resolve => setTimeout(resolve, ms))] *)
Definition sleep (ms : Z) (w : World) : World :=
  emit (EvSleep ms) w.

(* ===================================================================== *)
(** ** [callGeminiWithRetry] *)
(* ===================================================================== *)

(** [error?.message?.includes(needle)] *)
Definition message_includes (error : Val) (needle : string) : Res Val :=
  let m := get_opt error "message" in
  if nullish m then Ok Undefined else call_includes m needle.

(** [JSON.stringify(error).includes(needle)] *)
Definition json_includes (error : Val) (needle : string) : Res Val :=
  match stringify error with
  | Some s => Ok (Bool (includes s needle))
  | None =>
      Threw (TypeError
               "Cannot read properties of undefined (reading 'includes')")
  end.

(** The value of [isRateLimit], lines 27 to 35. *)
Definition isRateLimit (error : Val) : Res Val :=
  (Ok (Bool (strict_eq_num (get_opt error "status") (int 429)))
   ||| Ok (Bool (strict_eq_num (get_opt error "code") (int 429)))
   ||| message_includes error "429"
   ||| message_includes error "RESOURCE_EXHAUSTED"
   ||| message_includes error "quota"
   ||| json_includes error "429"
   ||| json_includes error "RESOURCE_EXHAUSTED"
   ||| json_includes error "quota")%js.

(** Where a run of the executor ends. *)
Inductive Exit (A : Type) : Type :=
| ReturnValue (v : A)            (* line 22, [return await apiCall()] *)
| ThrowClassifier (e : Val)      (* lines 27-35, inside the catch block *)
| ThrowError (error : Val)       (* line 45, [throw error] *)
| ThrowLastError (lastError : Val). (* line 48, [throw lastError] *)
Arguments ReturnValue {A} v.
Arguments ThrowClassifier {A} e.
Arguments ThrowError {A} error.
Arguments ThrowLastError {A} lastError.

(** What the caller of the executor sees. *)
Definition completion {A : Type} (x : Exit A) : Res A :=
  match x with
  | ReturnValue v => Ok v
  | ThrowClassifier e | ThrowError e | ThrowLastError e => Threw e
  end.

Definition retry_message (delay i maxRetries : Z) : string :=
  "Gemini API Quota reached (429). Retrying in "
  ++ number_to_string (int delay) ++ "ms... (Attempt "
  ++ number_to_string (int (i + 1)) ++ "/"
  ++ number_to_string (int maxRetries) ++ ")".

Section Executor.

Context {A : Type}.
Variable apiCall : ApiCall A.
Variables maxRetries initialDelay : Z.

(** The [for] loop of lines 20 to 47, entered with counter [i]. *)
Equations? retry_loop (i : Z) (lastError : Val) (w : World) : Exit A * World
  by wf (Z.to_nat (maxRetries - i)) lt :=
  retry_loop i lastError w with Z_lt_dec i maxRetries => {
    | right _ => (ThrowLastError lastError, w);
    | left _ with apiCall w => {
        | (Resolve v, w1) => (ReturnValue v, w1);
        | (Reject error, w1) with isRateLimit error => {
            | Threw e => (ThrowClassifier e, w1);
            | Ok verdict with truthy verdict && (i <? maxRetries - 1) => {
                | true =>
                    let delay := initialDelay * 2 ^ i in
                    retry_loop (i + 1) error
                      (sleep delay
                         (console_warn (retry_message delay i maxRetries) w1));
                | false => (ThrowError error, w1) } } } }.
Proof. lia. Qed.

End Executor.

(** A parameter with a default value: the default is taken when the argument
    is left out ([None]). *)
Definition default_to {T : Type} (d : T) (arg : option T) : T :=
  match arg with
  | Some x => x
  | None => d
  end.

(** [callGeminiWithRetry(apiCall, maxRetries = 5, initialDelay = 5000)];
    [lastError] starts out [undefined]. *)
Definition callGeminiWithRetry {A : Type} (apiCall : ApiCall A)
  (maxRetries initialDelay : option Z) (w : World) : Exit A * World :=
  retry_loop apiCall (default_to 5 maxRetries) (default_to 5000 initialDelay)
             0 Undefined w.

(* ===================================================================== *)
(** ** The four prompt operations *)
(* ===================================================================== *)

Definition nl : string := String "010" "".

(** [import.meta.env] *)
Record Env : Set := mkEnv { VITE_GEMINI_API_KEY : option string }.

(** [!apiKey]: the key is [undefined] or the empty string. *)
Definition key_missing (apiKey : option string) : bool :=
  negb (truthy (match apiKey with
                | Some k => Str k
                | None => Undefined
                end)).

(** [new GoogleGenAI({ apiKey })] *)
Record GoogleGenAI : Set := mkGoogleGenAI { apiKey : string }.

Definition client (k : option string) : GoogleGenAI :=
  mkGoogleGenAI (match k with Some s => s | None => "" end).

(** [response.text] as a JavaScript value *)
Definition text_value (response : Response) : Val :=
  match text response with
  | Some s => Str s
  | None => Undefined
  end.

Inductive SummaryType : Set := concise | detailed | keypoints.

Definition SummaryType_eqb (a b : SummaryType) : bool :=
  match a, b with
  | concise, concise | detailed, detailed | keypoints, keypoints => true
  | _, _ => false
  end.

Inductive Lang : Set := zh | vi.

Definition gemini_model : string := "gemini-2.0-flash".

Definition KEY_NOT_CONFIGURED : string :=
  "API Key 未設置。請在 .env.local 中設置 VITE_GEMINI_API_KEY / API Key chưa được cấu hình. Vui lòng đặt VITE_GEMINI_API_KEY trong .env.local".

Definition AI_UNAVAILABLE : string :=
  "AI 暫時無法回應 (已達流量限制或出現錯誤)。請稍候 1 分鐘後再試。/ AI tạm thời không phản hồi (đã đạt giới hạn lưu lượng hoặc gặp lỗi). Vui lòng thử lại sau 1 phút.".

Definition SUMMARY_KEY_NOT_CONFIGURED : string :=
  "API Key 未設置。/ API Key chưa được cấu hình.".

Definition feedbackInstruction (targetLangName : string) : string :=
  "You are an expert consultant for Taiwan-Vietnam marriage interviews. " ++ nl
  ++ "  Your goal is to analyze the answers from both the groom and the bride, point out any inconsistencies, and provide professional advice to make their answers more persuasive, consistent, and authentic. " ++ nl
  ++ "  IMPORTANT: You must provide your response entirely in "
  ++ targetLangName ++ ".".

Definition feedbackPrompt (question maleAnswer femaleAnswer targetLangName
  : string) : string :=
  nl
  ++ "    Question: " ++ question ++ nl
  ++ "    Groom's Answer: " ++ maleAnswer ++ nl
  ++ "    Bride's Answer: " ++ femaleAnswer ++ nl
  ++ "    " ++ nl
  ++ "    Please provide feedback and suggestions in " ++ targetLangName
  ++ "." ++ nl
  ++ "  ".

Definition translateInstruction (targetLang : Lang) : string :=
  let targetLabel := match targetLang with
                     | zh => "Traditional Chinese"
                     | vi => "Vietnamese"
                     end in
  "You are a professional translator specializing in Taiwan and Vietnam cultural context. " ++ nl
  ++ "  Translate the given text into " ++ targetLabel ++ ". " ++ nl
  ++ "  Maintain the original meaning and emotional tone. " ++ nl
  ++ "  Only return the translated text. Do not add any explanation or markers.".

(** Lines 143 to 150. *)
Definition summaryInstruction (type : SummaryType) (targetLangName : string)
  : string :=
  let instruction := "" in
  if SummaryType_eqb type concise then
    "You are a concise summarization tool. Summarize the following content in under 30 words. You MUST respond entirely in "
    ++ targetLangName ++ "."
  else if SummaryType_eqb type detailed then
    "You are a detailed summarization tool. Summarize the following content in about 100 words with details. You MUST respond entirely in "
    ++ targetLangName ++ "."
  else if SummaryType_eqb type keypoints then
    "You are a key points extraction tool. List the most important 3 to 5 key points. You MUST respond entirely in "
    ++ targetLangName ++ "."
  else instruction.

Definition summaryPrompt (answer : string) : string :=
  "Content to summarize: " ++ answer.

Definition consistencyInstruction : string :=
  "You are a fact-checking assistant for marriage interviews. " ++ nl
  ++ "  Compare the Groom's and Bride's answers to the given question. " ++ nl
  ++ "  Determine if they are semantically contradictory (e.g., different dates, different locations, different people)." ++ nl
  ++ "  Ignore minor phrasing differences. Focus only on factual conflicts." ++ nl
  ++ "  Respond only in JSON format.".

Definition consistencyPrompt (question maleAnswer femaleAnswer : string)
  : string :=
  nl
  ++ "    Question: " ++ question ++ nl
  ++ "    Groom's Answer: " ++ maleAnswer ++ nl
  ++ "    Bride's Answer: " ++ femaleAnswer ++ nl
  ++ "    " ++ nl
  ++ "    Check for factual contradictions." ++ nl
  ++ "  ".

(** Lines 205 to 212. *)
Definition consistencySchema : Schema :=
  SchemaObject
    [("consistent", SchemaBoolean);
     ("reason", SchemaString (Some "A short reason if contradictory"))]
    ["consistent"].

(** [{ consistent: true }] *)
Definition CONSISTENT : Val := Obj [("consistent", Bool true)].

Section Operations.

(** The upstream service: how its [n]-th call settles, given the key and the
    request it receives. *)
Variable service : nat -> string -> Request -> Outcome Response.
Variable env : Env.

(** [ai.models.generateContent(request)] *)
Definition generateContent (ai : GoogleGenAI) (r : Request)
  : ApiCall Response :=
  upstream (fun n => service n (apiKey ai) r) (EvRequest (apiKey ai) r).

(** [await callGeminiWithRetry(() => ai.models.generateContent(request))] *)
Definition await_call (ai : GoogleGenAI) (r : Request) : M Response :=
  fun w =>
    let '(x, w') := callGeminiWithRetry (generateContent ai r) None None w in
    (completion x, w').

Definition feedbackRequest (question maleAnswer femaleAnswer targetLangName
  : string) : Request :=
  mkRequest gemini_model
    (feedbackPrompt question maleAnswer femaleAnswer targetLangName)
    (mkConfig (feedbackInstruction targetLangName) (Some (mkNumber 7 (-1)))
              None None).

Definition getAiFeedback (question maleAnswer femaleAnswer targetLangName
  : string) : M Val :=
  (let apiKey := VITE_GEMINI_API_KEY env in
   if key_missing apiKey then
     console_error
       "API Key not found. Please set VITE_GEMINI_API_KEY in .env.local" None ;;
     ret (Str KEY_NOT_CONFIGURED)
   else
     let ai := client apiKey in
     try_catch
       (response <- await_call ai (feedbackRequest question maleAnswer
                                     femaleAnswer targetLangName) ;;
        ret (text_value response))
       (fun error =>
          console_error "AI Error:" (Some error) ;;
          ret (Str AI_UNAVAILABLE)))%js.

Definition translateRequest (text : string) (targetLang : Lang) : Request :=
  mkRequest gemini_model text
    (mkConfig (translateInstruction targetLang) (Some (mkNumber 3 (-1)))
              None None).

Definition translateText (text : string) (targetLang : Lang) : M Val :=
  (let apiKey := VITE_GEMINI_API_KEY env in
   if key_missing apiKey then
     console_error "API Key not found" None ;;
     ret Null
   else
     let ai := client apiKey in
     try_catch
       (response <- await_call ai (translateRequest text targetLang) ;;
        ret (text_value response))
       (fun error =>
          console_error "Translation Error:" (Some error) ;;
          ret Null))%js.

Definition summaryRequest (answer targetLangName : string)
  (type : SummaryType) : Request :=
  mkRequest gemini_model (summaryPrompt answer)
    (mkConfig (summaryInstruction type targetLangName)
              (Some (mkNumber 5 (-1))) None None).

(** [type] is [None] when the caller leaves the third argument out. *)
Definition getAiSummary (answer targetLangName : string)
  (type : option SummaryType) : M Val :=
  (let type := match type with Some t => t | None => concise end in
   let apiKey := VITE_GEMINI_API_KEY env in
   if key_missing apiKey then
     console_error "API Key not found" None ;;
     ret (Str SUMMARY_KEY_NOT_CONFIGURED)
   else
     let ai := client apiKey in
     try_catch
       (response <- await_call ai (summaryRequest answer targetLangName type) ;;
        ret (text_value response))
       (fun error =>
          console_error "AI Summary Error:" (Some error) ;;
          ret Null))%js.

Definition consistencyRequest (question maleAnswer femaleAnswer : string)
  : Request :=
  mkRequest gemini_model
    (consistencyPrompt question maleAnswer femaleAnswer)
    (mkConfig consistencyInstruction None (Some "application/json")
              (Some consistencySchema)).

Definition checkAnswerConsistency (question maleAnswer femaleAnswer : string)
  : M Val :=
  (let apiKey := VITE_GEMINI_API_KEY env in
   if key_missing apiKey then
     console_error "API Key not found" None ;;
     ret CONSISTENT
   else
     let ai := client apiKey in
     try_catch
       (response <- await_call ai (consistencyRequest question maleAnswer
                                     femaleAnswer) ;;
        lift (JSON_parse (text response)))
       (fun error =>
          console_error "Consistency Check Error:" (Some error) ;;
          ret CONSISTENT))%js.

End Operations.

(* ===================================================================== *)
(** ** Vocabulary of the statements *)
(* ===================================================================== *)

(** The verdicts of the classifier: the value of [isRateLimit] is truthy,
    or it is falsy.  An error on which the classifier itself throws has
    neither verdict. *)
Definition retryable (error : Val) : Prop :=
  exists verdict, isRateLimit error = Ok verdict /\ truthy verdict = true.

Definition fatal (error : Val) : Prop :=
  exists verdict, isRateLimit error = Ok verdict /\ truthy verdict = false.

Definition verdict_of (r : Res Val) : bool :=
  match r with
  | Ok v => truthy v
  | Threw _ => false
  end.

(** [needle] occurs in [s]. *)
Definition contains (s needle : string) : Prop :=
  exists before after, s = before ++ needle ++ after.

(** One of the three signatures occurs in the text. *)
Definition has_signature (s : string) : Prop :=
  contains s "429" \/ contains s "RESOURCE_EXHAUSTED" \/ contains s "quota".

Definition signature_in (s : string) : bool :=
  includes s "429" || includes s "RESOURCE_EXHAUSTED" || includes s "quota".

(** The field [k] of the error is the number 429. *)
Definition field_is_429 (error : Val) (k : string) : Prop :=
  exists n, get_opt error k = Num n /\ num_eqb n (int 429) = true.

(** The signature of rate limiting, in the words of the specification. *)
Definition rate_limit_signature (error : Val) : Prop :=
  field_is_429 error "status"
  \/ field_is_429 error "code"
  \/ (exists m, get_opt error "message" = Str m /\ has_signature m)
  \/ (exists s, stringify error = Some s /\ has_signature s).

(** The error carries no message, or a message that can be searched: a
    string or an array. *)
Definition message_searchable (error : Val) : Prop :=
  match get_opt error "message" with
  | Undefined | Null | Str _ | Arr _ => True
  | _ => False
  end.

(** A hit of [error?.message?.includes(needle)]. *)
Definition message_hit (error : Val) (needle : string) : bool :=
  match get_opt error "message" with
  | Str m => includes m needle
  | Arr elems => existsb (is_string needle) elems
  | _ => false
  end.

(** The effects of [n] consecutive attempts that fail and are retried, the
    first of them made with loop counter [i]; [ev] is the mark a call
    leaves. *)
Fixpoint retried (ev : Event) (initialDelay maxRetries i : Z) (n : nat)
  : list Event :=
  match n with
  | O => []
  | S n' =>
      [ev; EvWarn (retry_message (initialDelay * 2 ^ i) i maxRetries);
       EvSleep (initialDelay * 2 ^ i)]
      ++ retried ev initialDelay maxRetries (i + 1) n'
  end.

(** The effects of a run in which every attempt fails and is retried until
    none is left. *)
Definition exhausted_trace (initialDelay maxRetries : Z) : list Event :=
  retried EvCall initialDelay maxRetries 0 (Z.to_nat maxRetries - 1)
  ++ [EvCall].

(** The delays slept, in order, and the number of calls made. *)
Definition delays_of (l : list Event) : list Z :=
  flat_map (fun ev => match ev with
                      | EvSleep ms => [ms]
                      | _ => []
                      end) l.

Definition is_call (ev : Event) : bool :=
  match ev with
  | EvCall | EvRequest _ _ => true
  | _ => false
  end.

Definition attempts_of (l : list Event) : nat :=
  List.length (filter is_call l).



(** *** Sample values *)

(** What the client of the service rejects with on a rate limit, and on a
    network failure. *)
Definition quota_error : Val :=
  Err "got status: 429 Too Many Requests"
      [("name", Str "ApiError"); ("status", Num (int 429))].

Definition network_error : Val := Err "fetch failed" [].

(** A service that answers every request with the same text, and one that
    rejects every request with the same error. *)
Definition answering (t : option string)
  : nat -> string -> Request -> Outcome Response :=
  fun _ _ _ => Resolve (mkResponse t).

Definition failing (error : Val)
  : nat -> string -> Request -> Outcome Response :=
  fun _ _ _ => Reject error.

Definition no_key : Env := mkEnv None.
Definition with_key : Env := mkEnv (Some "test-key").
Definition fresh : World := mkWorld 0 [].

(** The text [{"consistent":"maybe"}]: JSON, but [consistent] is no boolean. *)
Definition maybe_text : string :=
  "{" ++ quote "consistent" ++ ":" ++ quote "maybe" ++ "}".

(** The text [{"consistent":false,"reason":"dates differ"}]. *)
Definition verdict_text : string :=
  "{" ++ quote "consistent" ++ ":false," ++ quote "reason" ++ ":"
  ++ quote "dates differ" ++ "}".

(** *** Measures of a trace *)

(** The time slept, in milliseconds. *)
Definition sum_delays (l : list Z) : Z := fold_right Z.add 0 l.

(** The requests sent, in order, each with the key it was sent under. *)
Definition requests_of (l : list Event) : list (string * Request) :=
  flat_map (fun ev => match ev with
                      | EvRequest key r => [(key, r)]
                      | _ => []
                      end) l.

(** The classifier throws on the error. *)
Definition unclassified (error : Val) : Prop :=
  exists e, isRateLimit error = Threw e.

(** *** More sample values *)

(** A rate limit reported by [status] alone, with a message that is no text,
    and an error whose message is no text and that has no [status]. *)
Definition bare_status_error : Val :=
  Obj [("status", Num (int 429)); ("message", Num (int 1))].



(** A call that is rate limited twice and then fails for good, and one that
    is rate limited twice and then rejects with [undefined]. *)
Definition limited_then (last : Outcome nat) : nat -> Outcome nat :=
  fun n => if (n <? 2)%nat then Reject quota_error else last.

(** *** The call path of an operation *)

(** From [w] to [w'] the same request went out [n] times under the same key,
    with [1 <= n <= 5], each time reaching the service, and at most 75
    seconds were slept. *)
Definition bounded_path (key : string) (r : Request) (w w' : World) : Prop :=
  exists (l : list Event) (n : nat),
    log w' = (log w ++ l)%list
    /\ (1 <= n <= 5)%nat
    /\ requests_of l = repeat (key, r) n
    /\ calls w' = (calls w + n)%nat
    /\ 0 <= sum_delays (delays_of l) <= 75000.

(** The object [{ consistent: b }], with [reason] when there is one. *)
Definition consistency_result (b : bool) (reason : option string) : Val :=
  Obj (("consistent", Bool b)
       :: match reason with
          | Some s => [("reason", Str s)]
          | None => []
          end).

(** The parser inside a string whose characters so far are [rc], last one
    first. *)
Definition in_string (st : list Frame) (iskey : bool) (rc : list ascii)
  : PState :=
  mkPState st (MString iskey rc None SPlain) None.

(** *** More sample services *)



(** *** Values that JSON text can hold *)

(** The keys of an object are distinct. *)
Fixpoint distinct (l : list string) : bool :=
  match l with
  | [] => true
  | k :: l' => negb (existsb (String.eqb k) l') && distinct l'
  end.

(** A value made of [null], booleans, strings, arrays and objects with
    distinct keys (numbers are left out: their printing is not inverted
    here). *)
Fixpoint plain (v : Val) : bool :=
  match v with
  | Null | Bool _ | Str _ => true
  | Arr elems => forallb plain elems
  | Obj props =>
      forallb (fun kv => plain (snd kv)) props && distinct (map fst props)
  | _ => false
  end.

(** The parser where a value may start. *)
Definition at_value (st : list Frame) (first : bool) : PState :=
  mkPState st (MValue first) None.


(** An answer with an array and an object inside. *)
Definition nested_answer : Val :=
  Obj [("consistent", Bool false);
       ("reason", Str "dates differ");
       ("details", Arr [Str "2019"; Null; Obj [("groom", Str "2020")]])].

(* ===================================================================== *)
(** ** The retry loop *)
(* ===================================================================== *)

Section Turns.

Context {A : Type}.
Variable apiCall : ApiCall A.
Variables maxRetries initialDelay : Z.

(** One turn of the loop, as the source reads. *)
Lemma retry_loop_turn (i : Z) (lastError : Val) (w : World) :
  retry_loop apiCall maxRetries initialDelay i lastError w =
  if i <? maxRetries then
    match apiCall w with
    | (Resolve v, w1) => (ReturnValue v, w1)
    | (Reject error, w1) =>
        match isRateLimit error with
        | Threw e => (ThrowClassifier e, w1)
        | Ok verdict =>
            if truthy verdict && (i <? maxRetries - 1) then
              let delay := initialDelay * 2 ^ i in
              retry_loop apiCall maxRetries initialDelay (i + 1) error
                (sleep delay
                   (console_warn (retry_message delay i maxRetries) w1))
            else (ThrowError error, w1)
        end
    end
  else (ThrowLastError lastError, w).
Proof.
  rewrite retry_loop_equation_1.
  destruct (Z_lt_dec i maxRetries) as [Hlt | Hge]; cbn.
  - rewrite (proj2 (Z.ltb_lt _ _) Hlt).
    destruct (apiCall w) as [[v | error] w1]; cbn; [reflexivity |].
    destruct (isRateLimit error) as [verdict | e]; cbn; [| reflexivity].
    destruct (truthy verdict && (i <? maxRetries - 1)); reflexivity.
  - rewrite (proj2 (Z.ltb_nlt _ _) Hge). reflexivity.
Qed.

(** A call that resolves ends the loop at once, in the world the call left. *)
Lemma resolve_turn (i : Z) (lastError : Val) (w w1 : World) (v : A) :
  i < maxRetries ->
  apiCall w = (Resolve v, w1) ->
  retry_loop apiCall maxRetries initialDelay i lastError w = (ReturnValue v, w1).
Proof.
  intros Hi Hcall. rewrite retry_loop_turn, Hcall.
  rewrite (proj2 (Z.ltb_lt _ _) Hi). reflexivity.
Qed.

(** A failure the classifier holds not retryable is thrown again as it is. *)
Lemma fatal_turn (i : Z) (lastError error : Val) (w w1 : World) :
  i < maxRetries ->
  apiCall w = (Reject error, w1) ->
  fatal error ->
  retry_loop apiCall maxRetries initialDelay i lastError w
  = (ThrowError error, w1).
Proof.
  intros Hi Hcall (verdict & Hverdict & Hfalsy).
  rewrite retry_loop_turn, Hcall, Hverdict, Hfalsy.
  rewrite (proj2 (Z.ltb_lt _ _) Hi). reflexivity.
Qed.

(** So is any classified failure of the last attempt. *)
Lemma last_turn (lastError error verdict : Val) (w w1 : World) :
  1 <= maxRetries ->
  apiCall w = (Reject error, w1) ->
  isRateLimit error = Ok verdict ->
  retry_loop apiCall maxRetries initialDelay (maxRetries - 1) lastError w
  = (ThrowError error, w1).
Proof.
  intros Hmax Hcall Hverdict.
  rewrite retry_loop_turn, Hcall, Hverdict.
  replace (maxRetries - 1 <? maxRetries) with true
    by (symmetry; apply Z.ltb_lt; lia).
  rewrite Z.ltb_irrefl, andb_false_r. reflexivity.
Qed.

(** A failure on which the classifier itself throws ends the loop with what
    the classifier threw. *)
Lemma classifier_turn (i : Z) (lastError error e : Val) (w w1 : World) :
  i < maxRetries ->
  apiCall w = (Reject error, w1) ->
  isRateLimit error = Threw e ->
  retry_loop apiCall maxRetries initialDelay i lastError w
  = (ThrowClassifier e, w1).
Proof.
  intros Hi Hcall Hthrow. rewrite retry_loop_turn, Hcall, Hthrow.
  rewrite (proj2 (Z.ltb_lt _ _) Hi). reflexivity.
Qed.

(** While the counter is below [maxRetries] the loop ends inside its body. *)
Lemma exit_inside_loop (n : nat) :
  forall (i : Z) (lastError : Val) (w : World),
    Z.to_nat (maxRetries - i) = n ->
    i < maxRetries ->
    match fst (retry_loop apiCall maxRetries initialDelay i lastError w) with
    | ThrowLastError _ => False
    | _ => True
    end.
Proof.
  induction n as [n IH] using lt_wf_ind. intros i lastError w Hn Hi.
  rewrite retry_loop_turn, (proj2 (Z.ltb_lt _ _) Hi).
  destruct (apiCall w) as [[v | error] w1]; [exact I |].
  destruct (isRateLimit error) as [verdict | e]; [| exact I].
  destruct (truthy verdict && (i <? maxRetries - 1)) eqn:Hgo; [| exact I].
  apply andb_prop in Hgo as [_ Hnext]. apply Z.ltb_lt in Hnext.
  cbv zeta. apply (IH (Z.to_nat (maxRetries - (i + 1)))); lia.
Qed.

End Turns.

Section UpstreamFacts.

Context {A : Type}.
Variable outs : nat -> Outcome A.
Variable ev : Event.
Variables maxRetries initialDelay : Z.

Local Abbreviation run :=
  (retry_loop (upstream outs ev) maxRetries initialDelay).

(** The attempt made with counter [i] fails with a retryable error and is
    not the last one: the loop warns, sleeps and goes on with [i + 1]. *)
Lemma retried_turn (i : Z) (lastError error : Val) (w : World) :
  i < maxRetries - 1 ->
  outs (calls w) = Reject error ->
  retryable error ->
  run i lastError w =
  run (i + 1) error
      (mkWorld (S (calls w))
               (log w ++ retried ev initialDelay maxRetries i 1)).
Proof.
  intros Hi Hout (verdict & Hverdict & Htruthy).
  rewrite retry_loop_turn.
  replace (i <? maxRetries) with true by (symmetry; apply Z.ltb_lt; lia).
  unfold upstream at 1. rewrite Hout, Hverdict, Htruthy.
  replace (i <? maxRetries - 1) with true by (symmetry; apply Z.ltb_lt; lia).
  cbn [andb]. cbv zeta. f_equal.
  unfold sleep, console_warn, emit. cbn [calls log retried].
  rewrite <- !app_assoc. reflexivity.
Qed.

(** [n] such attempts in a row. *)
Lemma retried_turns (n : nat) :
  forall (i : Z) (lastError : Val) (w : World) (errs : nat -> Val),
    i + Z.of_nat n < maxRetries ->
    (forall j, (j < n)%nat ->
               outs (calls w + j)%nat = Reject (errs j) /\ retryable (errs j)) ->
    run i lastError w =
    run (i + Z.of_nat n)
        (match n with
         | O => lastError
         | S m => errs m
         end)
        (mkWorld (calls w + n)%nat
                 (log w ++ retried ev initialDelay maxRetries i n)).
Proof.
  induction n as [| n IH]; intros i lastError w errs Hi Hall.
  - cbn [retried]. rewrite Z.add_0_r, Nat.add_0_r, app_nil_r.
    destruct w; reflexivity.
  - destruct (Hall 0%nat) as [Hout Hretry]; [lia |].
    rewrite Nat.add_0_r in Hout.
    assert (Hi1 : i < maxRetries - 1) by lia.
    rewrite (@retried_turn i lastError (errs 0%nat) w Hi1 Hout Hretry).
    rewrite (IH (i + 1) (errs 0%nat) _ (fun j => errs (S j))).
    + cbn [calls log]. f_equal.
      * lia.
      * destruct n; reflexivity.
      * f_equal; [lia |].
        cbn [retried]. rewrite <- !app_assoc. reflexivity.
    + lia.
    + intros j Hj. cbn [calls].
      replace (S (calls w) + j)%nat with (calls w + S j)%nat by lia.
      apply Hall. lia.
Qed.

(** Every attempt fails with a retryable error: the last one is thrown. *)
Lemma upstream_exhausted (errs : nat -> Val) (lastError : Val) (w : World) :
  1 <= maxRetries ->
  (forall j, (j < Z.to_nat maxRetries)%nat ->
             outs (calls w + j)%nat = Reject (errs j) /\ retryable (errs j)) ->
  run 0 lastError w
  = (ThrowError (errs (Z.to_nat maxRetries - 1)%nat),
     mkWorld (calls w + Z.to_nat maxRetries)
             (log w ++ retried ev initialDelay maxRetries 0
                               (Z.to_nat maxRetries - 1) ++ [ev])).
Proof.
  intros Hmax Hall.
  set (n := (Z.to_nat maxRetries - 1)%nat).
  assert (Hn : Z.of_nat n = maxRetries - 1) by lia.
  rewrite (retried_turns n 0 lastError w errs);
    [| lia | intros j Hj; apply Hall; lia].
  destruct (Hall n) as [Hout (verdict & Hverdict & _)]; [lia |].
  rewrite Z.add_0_l, Hn.
  rewrite (@last_turn A (upstream outs ev) maxRetries initialDelay _
             (errs n) verdict _
             (mkWorld (S (calls w + n))
                      ((log w ++ retried ev initialDelay maxRetries 0 n)
                         ++ [ev])) Hmax); [| | exact Hverdict].
  - f_equal. f_equal; [lia | symmetry; apply app_assoc].
  - unfold upstream. cbn [calls log]. rewrite Hout. reflexivity.
Qed.

(** Attempt [k] is the first that does not fail with a retryable error and
    it resolves: its value is returned. *)
Lemma upstream_success (errs : nat -> Val) (k : nat) (v : A)
  (lastError : Val) (w : World) :
  Z.of_nat k < maxRetries ->
  (forall j, (j < k)%nat ->
             outs (calls w + j)%nat = Reject (errs j) /\ retryable (errs j)) ->
  outs (calls w + k)%nat = Resolve v ->
  run 0 lastError w
  = (ReturnValue v,
     mkWorld (S (calls w + k))
             (log w ++ retried ev initialDelay maxRetries 0 k ++ [ev])).
Proof.
  intros Hk Hall Hout.
  rewrite (retried_turns k 0 lastError w errs); [| lia | exact Hall].
  apply resolve_turn; [lia |].
  unfold upstream. cbn [calls log]. rewrite Hout, app_assoc. reflexivity.
Qed.

(** Attempt [k] is the first that does not fail with a retryable error and
    it fails with an error held not retryable: that error is thrown. *)
Lemma upstream_fatal (errs : nat -> Val) (k : nat) (error lastError : Val)
  (w : World) :
  Z.of_nat k < maxRetries ->
  (forall j, (j < k)%nat ->
             outs (calls w + j)%nat = Reject (errs j) /\ retryable (errs j)) ->
  outs (calls w + k)%nat = Reject error ->
  fatal error ->
  run 0 lastError w
  = (ThrowError error,
     mkWorld (S (calls w + k))
             (log w ++ retried ev initialDelay maxRetries 0 k ++ [ev])).
Proof.
  intros Hk Hall Hout Hfatal.
  rewrite (retried_turns k 0 lastError w errs); [| lia | exact Hall].
  apply fatal_turn; [lia | | exact Hfatal].
  unfold upstream. cbn [calls log]. rewrite Hout, app_assoc. reflexivity.
Qed.

End UpstreamFacts.

(** The delays slept in [n] retried attempts double from
    [initialDelay * 2 ^ i] on. *)
Lemma delays_of_retried (ev : Event) (initialDelay maxRetries : Z) (n : nat) :
  forall i : Z,
    is_call ev = true ->
    delays_of (retried ev initialDelay maxRetries i n) =
    map (fun j => initialDelay * 2 ^ (i + Z.of_nat j)) (seq 0 n).
Proof.
  induction n as [| n IH]; intros i Hev; [reflexivity |].
  assert (Hnone : match ev with EvSleep ms => [ms] | _ => [] end = [])
    by (destruct ev; [reflexivity | reflexivity | discriminate Hev ..]).
  unfold delays_of. cbn [retried app flat_map]. rewrite Hnone.
  cbn [app seq map]. rewrite Z.add_0_r. f_equal.
  etransitivity; [exact (IH (i + 1) Hev) |].
  rewrite <- seq_shift, map_map. apply map_ext. intros j.
  do 2 f_equal. lia.
Qed.

Lemma attempts_of_retried (ev : Event) (initialDelay maxRetries : Z)
  (n : nat) :
  forall i : Z,
    is_call ev = true ->
    attempts_of (retried ev initialDelay maxRetries i n) = n.
Proof.
  unfold attempts_of.
  induction n as [| n IH]; intros i Hev; [reflexivity |].
  cbn [retried app filter]. rewrite Hev. cbn [is_call List.length].
  rewrite (IH (i + 1) Hev). reflexivity.
Qed.

Lemma attempts_of_app (l1 l2 : list Event) :
  attempts_of (l1 ++ l2) = (attempts_of l1 + attempts_of l2)%nat.
Proof. unfold attempts_of. rewrite filter_app, length_app. reflexivity. Qed.

Lemma delays_of_app (l1 l2 : list Event) :
  delays_of (l1 ++ l2) = (delays_of l1 ++ delays_of l2)%list.
Proof. unfold delays_of. apply flat_map_app. Qed.

(* ===================================================================== *)
(** ** The classifier *)
(* ===================================================================== *)

(** *** Numbers *)

Lemma strip_zeros_value (fuel : nat) :
  forall m e m' e' : Z,
    0 < m ->
    strip_zeros fuel m e = (m', e') ->
    e <= e' /\ m = m' * 10 ^ (e' - e).
Proof.
  induction fuel as [| fuel IH]; intros m e m' e' Hm Hs; cbn [strip_zeros] in Hs.
  - injection Hs as <- <-. rewrite Z.sub_diag. cbn. lia.
  - destruct (m mod 10 =? 0) eqn:Hmod.
    + apply Z.eqb_eq in Hmod.
      assert (Hdiv : m = 10 * (m / 10)) by (apply Z_div_exact_full_2; lia).
      destruct (IH (m / 10) (e + 1) m' e') as [Hle Hval]; [lia | exact Hs |].
      split; [lia |].
      replace (e' - e) with (Z.succ (e' - (e + 1))) by lia.
      rewrite Z.pow_succ_r by lia. lia.
    + injection Hs as <- <-. rewrite Z.sub_diag. cbn. lia.
Qed.

(** A number that is [=== 429] denotes 429. *)
Lemma num_eqb_429_sound (x : Number) :
  num_eqb x (int 429) = true ->
  exp10 x <= 0 /\ mant x = 429 * 10 ^ (- exp10 x).
Proof.
  unfold num_eqb. change (normalize (int 429)) with (mkNumber 429 0).
  unfold normalize. destruct (mant x =? 0) eqn:Hz; [discriminate |].
  apply Z.eqb_neq in Hz.
  destruct (strip_zeros _ (Z.abs (mant x)) (exp10 x)) as [m e] eqn:Hs.
  cbn [mant exp10]. intros H. apply andb_prop in H as [Hm He].
  apply Z.eqb_eq in Hm, He. subst e.
  apply strip_zeros_value in Hs as [Hle Hval]; [| lia].
  split; [exact Hle |].
  rewrite Z.sub_0_l in Hval.
  assert (Hpow : 0 < 10 ^ (- exp10 x)) by (apply Z.pow_pos_nonneg; lia).
  destruct (Z.lt_trichotomy (mant x) 0) as [Hneg | [Hzero | Hpos]];
    [| contradiction |].
  - rewrite (Z.sgn_neg _ Hneg) in Hm. nia.
  - rewrite (Z.sgn_pos _ Hpos) in Hm. nia.
Qed.

Example number_429_is_429 :
  strict_eq_num (Num (int 429)) (int 429) = true
  /\ strict_eq_num (Num (mkNumber 4290 (-1))) (int 429) = true
  /\ strict_eq_num (Num (int 4290)) (int 429) = false
  /\ strict_eq_num (Str "429") (int 429) = false.
Proof. repeat split. Qed.

(** *** Strings *)

Lemma append_assoc (a b c : string) : (a ++ b) ++ c = a ++ b ++ c.
Proof. induction a as [| x a IH]; cbn; [| rewrite IH]; reflexivity. Qed.

Lemma append_nil_r (a : string) : a ++ "" = a.
Proof. induction a as [| x a IH]; cbn; [| rewrite IH]; reflexivity. Qed.

Lemma prefix_spec (p s : string) :
  prefix p s = true <-> exists after, s = p ++ after.
Proof.
  revert s. induction p as [| c p IH]; intros s.
  - split; [intros _; exists s; reflexivity |].
    intros _. destruct s; reflexivity.
  - destruct s as [| d s]; cbn.
    + split; [discriminate | intros [after H]; discriminate].
    + destruct (ascii_dec c d) as [-> | Hne].
      * rewrite IH. split; intros [after H]; exists after.
        -- rewrite H. reflexivity.
        -- injection H as H. exact H.
      * split; [discriminate |].
        intros [after H]. injection H as H _. congruence.
Qed.

(** [includes] decides [contains]. *)
Lemma includes_spec (s needle : string) :
  includes s needle = true <-> contains s needle.
Proof.
  unfold contains. split.
  - induction s as [| c s IH]; cbn [includes]; intros H;
      apply orb_prop in H as [H | H].
    + apply prefix_spec in H as [after H]. exists "", after. exact H.
    + discriminate.
    + apply prefix_spec in H as [after H]. exists "", after. exact H.
    + destruct (IH H) as (before & after & ->).
      exists (String c before), after. reflexivity.
  - intros (before & after & ->).
    induction before as [| c before IH].
    + cbn [append].
      assert (Hp : prefix needle (needle ++ after) = true)
        by (apply prefix_spec; exists after; reflexivity).
      destruct (needle ++ after); cbn [includes]; rewrite Hp; reflexivity.
    + cbn [append includes]. rewrite IH. apply orb_true_r.
Qed.

Lemma contains_refl (s : string) : contains s s.
Proof. exists "", "". cbn. symmetry. apply append_nil_r. Qed.

Lemma contains_inside (a b s needle : string) :
  contains s needle -> contains (a ++ s ++ b) needle.
Proof.
  intros (before & after & ->). exists (a ++ before), (after ++ b).
  rewrite !append_assoc. reflexivity.
Qed.

Lemma contains_trans (s t needle : string) :
  contains s t -> contains t needle -> contains s needle.
Proof. intros (before & after & ->) H. apply contains_inside, H. Qed.

Lemma contains_concat (sep x : string) (l : list string) :
  In x l -> contains (concat sep l) x.
Proof.
  induction l as [| y l IH]; [contradiction |].
  intros [-> | Hin].
  - destruct l as [| z l]; cbn [concat]; [apply contains_refl |].
    exists "", (sep ++ concat sep (z :: l)). reflexivity.
  - destruct l as [| z l]; [contradiction |].
    change (concat sep (y :: z :: l))
      with (y ++ sep ++ concat sep (z :: l)).
    rewrite <- (append_nil_r (concat sep (z :: l))).
    rewrite <- append_assoc. apply contains_inside, IH, Hin.
Qed.

Lemma signature_in_spec (s : string) :
  signature_in s = true <-> has_signature s.
Proof.
  unfold signature_in, has_signature.
  rewrite !orb_true_iff, !includes_spec. tauto.
Qed.

Lemma field_is_429_spec (error : Val) (k : string) :
  strict_eq_num (get_opt error k) (int 429) = true <-> field_is_429 error k.
Proof.
  unfold field_is_429, strict_eq_num.
  destruct (get_opt error k) as [| | | n | | | |];
    try (split; [discriminate | intros (n' & [=] & _)]).
  split; [intros H; exists n; auto | intros (n' & [= <-] & H); exact H].
Qed.

(** *** What the serialization shows *)

(** The serialization of an object shows that of each property [lookup]
    finds. *)
Lemma members_show_property (k sx : string) (x : Val)
  (props : list (string * Val)) :
  lookup k props = Some x ->
  stringify x = Some sx ->
  contains (concat "," (members stringify props)) sx.
Proof.
  intros Hlook Hx.
  assert (Hin : exists entry,
             In entry (members stringify props) /\ contains entry sx).
  { induction props as [| [k' y] props IH]; [discriminate |].
    cbn [lookup members] in *.
    destruct (String.eqb k k').
    - injection Hlook as ->. rewrite Hx.
      exists (quote k' ++ ":" ++ sx). split; [left; reflexivity |].
      rewrite <- (append_nil_r sx) at 1. rewrite <- append_assoc.
      apply contains_inside, contains_refl.
    - destruct (IH Hlook) as (entry & Hin & Hc). exists entry.
      split; [| exact Hc].
      destruct (stringify y); [right |]; exact Hin. }
  destruct Hin as (entry & Hin & Hc).
  apply (contains_trans _ entry); [apply contains_concat, Hin | exact Hc].
Qed.

(** The serialization of an array shows that of each element. *)
Lemma elements_show_element (sx : string) (x : Val) (elems : list Val) :
  In x elems ->
  stringify x = Some sx ->
  contains (concat "," (map (element stringify) elems)) sx.
Proof.
  intros Hin Hx. apply contains_concat.
  apply in_map_iff. exists x. split; [| exact Hin].
  unfold element. rewrite Hx. reflexivity.
Qed.

Lemma existsb_is_string (needle : string) (elems : list Val) :
  existsb (is_string needle) elems = true -> In (Str needle) elems.
Proof.
  intros H. apply existsb_exists in H as (x & Hin & Hx).
  destruct x; try discriminate. apply String.eqb_eq in Hx as ->. exact Hin.
Qed.

(** A message that is an array with the element [needle] puts [needle] into
    the serialization of the error. *)
Lemma array_message_serialized (error : Val) (elems : list Val)
  (needle : string) :
  get_opt error "message" = Arr elems ->
  existsb (is_string needle) elems = true ->
  quote_body needle = needle ->
  exists s, stringify error = Some s /\ contains s needle.
Proof.
  intros Hget Hin Hplain. apply existsb_is_string in Hin.
  assert (Hprops : exists props,
             lookup "message" props = Some (Arr elems)
             /\ stringify error
                = Some ("{" ++ concat "," (members stringify props) ++ "}")).
  { destruct error as [| | | | | | props | m props]; try discriminate Hget;
      unfold get_opt in Hget; cbn [nullish get_own] in Hget;
      exists props; (split; [| reflexivity]);
      destruct (lookup "message" props) as [x |]; try discriminate Hget;
      congruence. }
  destruct Hprops as (props & Hlook & ->). eexists. split; [reflexivity |].
  apply contains_inside.
  apply (contains_trans _ (quote needle)).
  - apply (contains_trans
             _ ("[" ++ concat "," (map (element stringify) elems) ++ "]")).
    + apply (members_show_property "message" _ (Arr elems));
        [exact Hlook | reflexivity].
    + apply contains_inside.
      apply (elements_show_element _ (Str needle)); [exact Hin | reflexivity].
  - unfold quote. rewrite Hplain.
    exists (String dquote ""), (String dquote ""). reflexivity.
Qed.

(** *** The verdict *)

(** [||] associates: the chain of lines 27 to 35 may be read from the left. *)
Lemma or_else_assoc (a b c : Res Val) :
  or_else (or_else a b) c = or_else a (or_else b c).
Proof.
  destruct a as [x | e]; cbn; [| reflexivity].
  destruct (truthy x) eqn:Hx; cbn; [rewrite Hx |]; reflexivity.
Qed.

Lemma verdict_or_else (x : Val) (r : Res Val) :
  verdict_of (or_else (Ok x) r) = truthy x || verdict_of r.
Proof. cbn. destruct (truthy x) eqn:Hx; cbn; [exact Hx | reflexivity]. Qed.

Lemma retryable_verdict (error : Val) :
  retryable error <-> verdict_of (isRateLimit error) = true.
Proof.
  unfold retryable. destruct (isRateLimit error) as [v | e]; cbn.
  - split; [intros (v' & [= <-] & H); exact H | intros H; exists v; auto].
  - split; [intros (v' & [=] & _) | discriminate].
Qed.

(** The verdict in closed form, for an error whose message can be
    searched. *)
Lemma verdict_isRateLimit (error : Val) :
  message_searchable error ->
  verdict_of (isRateLimit error) =
  strict_eq_num (get_opt error "status") (int 429)
  || strict_eq_num (get_opt error "code") (int 429)
  || (message_hit error "429" || message_hit error "RESOURCE_EXHAUSTED"
      || message_hit error "quota")
  || match stringify error with
     | Some s => signature_in s
     | None => false
     end.
Proof.
  unfold message_searchable, message_hit, isRateLimit, message_includes,
    json_includes.
  intros Hmsg. rewrite !or_else_assoc, !verdict_or_else. cbn [truthy].
  rewrite <- !orb_assoc. do 2 f_equal.
  destruct (get_opt error "message") as [| | | | m | elems | |] eqn:Hm;
    try contradiction; cbn [nullish call_includes];
    rewrite !verdict_or_else; cbn [truthy orb];
    unfold signature_in; rewrite <- ?orb_assoc; do 3 f_equal;
    (destruct (stringify error) as [s |];
     [rewrite !verdict_or_else; cbn [verdict_of truthy];
      rewrite <- ?orb_assoc; reflexivity
     | reflexivity]).
Qed.

(** An error whose message can be searched always gets a verdict, unless it
    is [undefined], which has no serialization. *)
Lemma classifier_total (error : Val) :
  message_searchable error ->
  error <> Undefined ->
  retryable error \/ fatal error.
Proof.
  unfold message_searchable, retryable, fatal, isRateLimit, message_includes,
    json_includes.
  intros Hmsg Hdef.
  assert (Hjson : exists s, stringify error = Some s).
  { destruct error as [| | [|] | | | | |]; try (eexists; reflexivity).
    contradiction. }
  destruct Hjson as [s ->].
  set (v := (_ ||| _)%js).
  assert (Hv : exists x, v = Ok x).
  { subst v.
    destruct (get_opt error "message") as [| | | | m | elems | |];
      try contradiction; cbn [nullish call_includes];
      repeat match goal with
        | |- context [or_else (Ok ?x) ?r] =>
            change (or_else (Ok x) r) with (if truthy x then Ok x else r)
        | |- context [if ?b then _ else _] => destruct b
        end; eexists; reflexivity. }
  destruct Hv as [x ->].
  destruct (truthy x) eqn:Hx; [left | right]; exists x; auto.
Qed.

(** A retryable verdict comes with the signature. *)
Lemma searchable_retryable_has_signature (error : Val) :
  message_searchable error ->
  retryable error ->
  rate_limit_signature error.
Proof.
  intros Hmsg Hretry. apply retryable_verdict in Hretry.
  rewrite (verdict_isRateLimit error Hmsg) in Hretry.
  unfold rate_limit_signature.
  rewrite !orb_true_iff, !field_is_429_spec in Hretry.
  destruct Hretry as [[[Hs | Hc] | Hm] | Hj]; [tauto | tauto | |].
  - unfold message_hit in Hm.
    destruct (get_opt error "message") as [| | | | m | elems | |] eqn:Hget;
      try (destruct Hm as [[Hm | Hm] | Hm]; discriminate Hm).
    + right; right; left. exists m. split; [reflexivity |].
      apply signature_in_spec. unfold signature_in.
      rewrite !orb_true_iff. exact Hm.
    + right; right; right.
      destruct Hm as [[Hm | Hm] | Hm];
        destruct (array_message_serialized error elems _ Hget Hm eq_refl)
          as (s & Hs & Hc);
        exists s; (split; [exact Hs |]); unfold has_signature; tauto.
  - right; right; right.
    destruct (stringify error) as [s |]; [| discriminate].
    exists s. split; [reflexivity | apply signature_in_spec, Hj].
Qed.

(** With a message that cannot be searched the verdict is decided by
    [status] and [code], or the classifier throws. *)
Lemma unsearchable_retryable (error : Val) :
  ~ message_searchable error ->
  retryable error ->
  field_is_429 error "status" \/ field_is_429 error "code".
Proof.
  unfold message_searchable, retryable, isRateLimit, message_includes.
  rewrite <- !field_is_429_spec.
  intros Hmsg (verdict & Hverdict & Htruthy).
  destruct (strict_eq_num (get_opt error "status") (int 429));
    [left; reflexivity |].
  destruct (strict_eq_num (get_opt error "code") (int 429));
    [right; reflexivity |].
  exfalso.
  destruct (get_opt error "message") as [| | | | | | |];
    try (apply Hmsg; exact I); discriminate Hverdict.
Qed.

(** Whatever the error, a retryable verdict comes with the signature. *)
Lemma retryable_has_signature (error : Val) :
  retryable error ->
  rate_limit_signature error.
Proof.
  intros Hretry.
  assert (Hdec : message_searchable error \/ ~ message_searchable error).
  { unfold message_searchable.
    destruct (get_opt error "message"); (left; exact I) || (right; tauto). }
  destruct Hdec as [Hmsg | Hmsg].
  - apply searchable_retryable_has_signature; assumption.
  - unfold rate_limit_signature.
    destruct (unsearchable_retryable error Hmsg Hretry); tauto.
Qed.

(** The failures of the classifier itself. *)
Example classifier_throws_on_undefined :
  exists e, isRateLimit Undefined = Threw e.
Proof. eexists. reflexivity. Qed.

Example classifier_throws_on_numeric_message :
  exists e, isRateLimit (Obj [("message", Num (int 503));
                              ("detail", Str "quota exceeded")]) = Threw e.
Proof. eexists. reflexivity. Qed.

Example quota_error_retryable : retryable quota_error.
Proof. exists (Bool true). split; reflexivity. Qed.

Example network_error_fatal : fatal network_error.
Proof. exists (Bool false). split; reflexivity. Qed.

Example null_fatal : fatal Null.
Proof. exists (Bool false). split; reflexivity. Qed.

Example quota_string_retryable : retryable (Str "daily quota exceeded").
Proof. exists (Bool true). split; reflexivity. Qed.

Example status_text_is_not_429 :
  fatal (Obj [("status", Str "503"); ("code", Num (int 503))]).
Proof. exists (Bool false). split; reflexivity. Qed.

Example lower_case_is_no_signature :
  fatal (Err "resource_exhausted" []).
Proof. exists (Bool false). split; reflexivity. Qed.

(** [status] and [code] are looked at first, and settle the verdict. *)
Lemma status_429_verdict (error : Val) :
  strict_eq_num (get_opt error "status") (int 429) = true ->
  isRateLimit error = Ok (Bool true).
Proof.
  intros Hs. unfold isRateLimit. rewrite !or_else_assoc, Hs. reflexivity.
Qed.

Lemma code_429_verdict (error : Val) :
  strict_eq_num (get_opt error "code") (int 429) = true ->
  isRateLimit error = Ok (Bool true).
Proof.
  intros Hc. unfold isRateLimit. rewrite !or_else_assoc, Hc.
  destruct (strict_eq_num (get_opt error "status") (int 429)); reflexivity.
Qed.

(** The signature gives the retryable verdict when the message can be
    searched. *)
Lemma signature_gives_verdict (error : Val) :
  message_searchable error ->
  rate_limit_signature error ->
  verdict_of (isRateLimit error) = true.
Proof.
  intros Hmsg Hsig.
  rewrite (verdict_isRateLimit error Hmsg), !orb_true_iff.
  destruct Hsig as [Hs | [Hc | [(m & Hget & Hm) | (s & Hs & Hj)]]].
  - left; left; left. apply field_is_429_spec, Hs.
  - left; left; right. apply field_is_429_spec, Hc.
  - left; right. unfold message_hit. rewrite Hget.
    apply signature_in_spec in Hm. unfold signature_in in Hm.
    rewrite !orb_true_iff in Hm. exact Hm.
  - right. rewrite Hs. apply signature_in_spec, Hj.
Qed.


(* ===================================================================== *)
(** ** Runs of the executor against a scripted call *)
(* ===================================================================== *)

(** C2.  When every attempt fails with an error classified retryable the
    executor calls [maxRetries] times, sleeps [initialDelay * 2 ^ j] after
    attempt [j] for [j] from 0 to [maxRetries - 2], sleeps no more after the
    last attempt and throws the error of that last attempt. *)
Theorem retries_exhausted (A : Type) (outs : nat -> Outcome A)
  (errs : nat -> Val) (mr idl : option Z) (w : World) :
  1 <= default_to 5 mr ->
  (forall j, (j < Z.to_nat (default_to 5%Z mr))%nat ->
             outs (calls w + j)%nat = Reject (errs j) /\ retryable (errs j)) ->
  callGeminiWithRetry (scripted outs) mr idl w
  = (ThrowError (errs (Z.to_nat (default_to 5%Z mr) - 1)%nat),
     mkWorld (calls w + Z.to_nat (default_to 5 mr))
             (log w ++ exhausted_trace (default_to 5000 idl)
                                       (default_to 5 mr)))
  /\ attempts_of (exhausted_trace (default_to 5000 idl) (default_to 5 mr))
     = Z.to_nat (default_to 5 mr)
  /\ delays_of (exhausted_trace (default_to 5000 idl) (default_to 5 mr))
     = map (fun j => default_to 5000 idl * 2 ^ Z.of_nat j)
           (seq 0 (Z.to_nat (default_to 5 mr) - 1)).
Proof.
  unfold callGeminiWithRetry, exhausted_trace, scripted.
  generalize (default_to 5 mr) (default_to 5000 idl).
  intros maxRetries initialDelay Hmax Hall.
  repeat split.
  - apply upstream_exhausted; assumption.
  - rewrite attempts_of_app, attempts_of_retried by reflexivity. cbn. lia.
  - rewrite delays_of_app, delays_of_retried by reflexivity.
    cbn [delays_of flat_map]. rewrite app_nil_r.
    apply map_ext. intros j. reflexivity.
Qed.

Lemma retries_exhausted_witness :
  callGeminiWithRetry (scripted (fun _ => Reject (A := unit) quota_error))
                      (Some 3) (Some 100) fresh
  = (ThrowError quota_error, mkWorld 3 (exhausted_trace 100 3))
  /\ attempts_of (exhausted_trace 100 3) = 3%nat
  /\ delays_of (exhausted_trace 100 3) = [100; 200].
Proof.
  apply (retries_exhausted unit (fun _ => Reject quota_error)
           (fun _ => quota_error) (Some 3) (Some 100) fresh).
  - cbn. lia.
  - intros j _. split; [reflexivity |].
    exists (Bool true). split; reflexivity.
Defined.




(** C5.  When attempt [k] (counted from 0, [k < maxRetries]) is the first to
    succeed, the executor returns its value; the call of attempt [k] is the
    last effect: no call and no delay follows it. *)
Theorem success_returned_at_once (A : Type) (outs : nat -> Outcome A)
  (errs : nat -> Val) (k : nat) (v : A) (mr idl : option Z) (w : World) :
  Z.of_nat k < default_to 5 mr ->
  (forall j, (j < k)%nat ->
             outs (calls w + j)%nat = Reject (errs j) /\ retryable (errs j)) ->
  outs (calls w + k)%nat = Resolve v ->
  callGeminiWithRetry (scripted outs) mr idl w
  = (ReturnValue v,
     mkWorld (S (calls w + k))
             (log w ++ retried EvCall (default_to 5000 idl) (default_to 5 mr)
                               0 k ++ [EvCall])).
Proof.
  unfold callGeminiWithRetry, scripted. intros Hk Hall Hout.
  apply (upstream_success outs EvCall _ _ errs); assumption.
Qed.

Lemma success_returned_at_once_witness :
  callGeminiWithRetry
    (scripted (fun n => if (n <? 2)%nat then Reject quota_error
                        else Resolve 7%nat))
    None None fresh
  = (ReturnValue 7%nat,
     mkWorld 3 (retried EvCall 5000 5 0 2 ++ [EvCall])).
Proof.
  apply (success_returned_at_once nat
           (fun n => if (n <? 2)%nat then Reject quota_error
                     else Resolve 7%nat)
           (fun _ => quota_error) 2 7%nat None None fresh).
  - cbn. lia.
  - intros j Hj. split.
    + cbn [calls fresh Nat.add].
      destruct (Nat.ltb_spec j 2); [reflexivity | lia].
    + exists (Bool true). split; reflexivity.
  - reflexivity.
Defined.

(** After [k] attempts that met a retryable failure, with the delays
    [initialDelay * 2^j] between them, an attempt that meets a failure held
    not retryable ends the run: [callGeminiWithRetry] throws that failure as
    it is, from inside the loop, and neither a call nor a delay follows. *)
Lemma fatal_error_after_retries (A : Type) (outs : nat -> Outcome A)
  (errs : nat -> Val) (k : nat) (error : Val) (mr idl : option Z)
  (w : World) :
  Z.of_nat k < default_to 5 mr ->
  (forall j, (j < k)%nat ->
             outs (calls w + j)%nat = Reject (errs j) /\ retryable (errs j)) ->
  outs (calls w + k)%nat = Reject error ->
  fatal error ->
  callGeminiWithRetry (scripted outs) mr idl w
  = (ThrowError error,
     mkWorld (S (calls w + k))
             (log w ++ retried EvCall (default_to 5000 idl) (default_to 5 mr)
                               0 k ++ [EvCall])).
Proof.
  unfold callGeminiWithRetry, scripted. intros Hk Hall Hout Hfatal.
  apply (upstream_fatal outs EvCall _ _ errs); assumption.
Qed.

(** C10.  The executor always ends (it is a total function).  With
    [maxRetries >= 1] it ends by returning a value or by throwing inside the
    catch block of the attempt it is in; [throw lastError] after the loop is
    reached only with [maxRetries <= 0], and then throws [undefined]. *)
Theorem throw_after_loop_unreachable (A : Type) (apiCall : ApiCall A)
  (mr idl : option Z) (w : World) :
  (1 <= default_to 5 mr ->
   match fst (callGeminiWithRetry apiCall mr idl w) with
   | ReturnValue _ | ThrowClassifier _ | ThrowError _ => True
   | ThrowLastError _ => False
   end)
  /\ (forall e, fst (callGeminiWithRetry apiCall mr idl w) = ThrowLastError e ->
                default_to 5 mr <= 0 /\ e = Undefined).
Proof.
  unfold callGeminiWithRetry.
  generalize (default_to 5 mr) (default_to 5000 idl).
  intros maxRetries initialDelay.
  assert (Hin : 1 <= maxRetries ->
                match fst (retry_loop apiCall maxRetries initialDelay 0
                                      Undefined w) with
                | ThrowLastError _ => False
                | _ => True
                end).
  { intros Hmax. apply (exit_inside_loop apiCall maxRetries initialDelay
                          (Z.to_nat (maxRetries - 0))); [reflexivity | lia]. }
  split.
  - intros Hmax. specialize (Hin Hmax).
    destruct (fst (retry_loop apiCall maxRetries initialDelay 0 Undefined w));
      exact Hin.
  - intros e He. destruct (Z_lt_le_dec 0 maxRetries) as [Hpos | Hle].
    + assert (Hmax : 1 <= maxRetries) by lia.
      specialize (Hin Hmax). rewrite He in Hin. contradiction.
    + split; [exact Hle |].
      rewrite retry_loop_turn in He.
      rewrite (proj2 (Z.ltb_nlt 0 maxRetries)) in He by lia.
      cbn in He. injection He as He. symmetry. exact He.
Qed.

Lemma throw_after_loop_unreachable_witness :
  match fst (callGeminiWithRetry
               (scripted (fun _ => Reject (A := unit) quota_error))
               None None fresh) with
  | ReturnValue _ | ThrowClassifier _ | ThrowError _ => True
  | ThrowLastError _ => False
  end.
Proof.
  apply (proj1 (throw_after_loop_unreachable unit
                  (scripted (fun _ => Reject quota_error)) None None fresh)).
  cbn. lia.
Defined.

(** With no attempt allowed the loop body never runs. *)
Example no_attempt_allowed :
  callGeminiWithRetry (scripted (fun _ => Resolve 7%nat)) (Some 0) None fresh
  = (ThrowLastError Undefined, fresh).
Proof. reflexivity. Qed.

(* ===================================================================== *)
(** ** The prompt operations *)
(* ===================================================================== *)

Section OperationFacts.

Variable service : nat -> string -> Request -> Outcome Response.
Variable env : Env.


(** The call path when the first request fails with an error held not
    retryable: one request, and that error thrown. *)
Lemma await_call_fatal (ai : GoogleGenAI) (r : Request) (error : Val)
  (w : World) :
  service (calls w) (apiKey ai) r = Reject error ->
  fatal error ->
  await_call service ai r w
  = (Threw error,
     mkWorld (S (calls w)) (log w ++ [EvRequest (apiKey ai) r])).
Proof.
  intros Hout Hfatal. unfold await_call, callGeminiWithRetry, generateContent.
  cbn [default_to].
  rewrite (upstream_fatal (fun n => service n (apiKey ai) r)
             (EvRequest (apiKey ai) r) 5 5000 (fun _ => Undefined) 0 error
             Undefined w); try assumption.
  - rewrite Nat.add_0_r. reflexivity.
  - lia.
  - intros j Hj. lia.
  - rewrite Nat.add_0_r. exact Hout.
Qed.

(** The call path when the first request is answered. *)
Lemma await_call_answered (ai : GoogleGenAI) (r : Request)
  (response : Response) (w : World) :
  service (calls w) (apiKey ai) r = Resolve response ->
  await_call service ai r w
  = (Ok response,
     mkWorld (S (calls w)) (log w ++ [EvRequest (apiKey ai) r])).
Proof.
  intros Hout. unfold await_call, callGeminiWithRetry, generateContent.
  cbn [default_to].
  rewrite (upstream_success (fun n => service n (apiKey ai) r)
             (EvRequest (apiKey ai) r) 5 5000 (fun _ => Undefined) 0 response
             Undefined w).
  - rewrite Nat.add_0_r. reflexivity.
  - lia.
  - intros j Hj. lia.
  - rewrite Nat.add_0_r. exact Hout.
Qed.



(** C8.  [translateText] returns [null] without a credential, making no call,
    and [null] however the call path fails; when the call path succeeds it
    returns the text of the response as it is (the string, or [undefined]
    when the response has none). *)
Theorem translate_null_or_text (original : string) (targetLang : Lang)
  (w : World) :
  translateText service env original targetLang w
  = if key_missing (VITE_GEMINI_API_KEY env) then
      (Ok Null, mkWorld (calls w) (log w ++ [EvError "API Key not found" None]))
    else
      match callGeminiWithRetry
              (generateContent service (client (VITE_GEMINI_API_KEY env))
                 (translateRequest original targetLang))
              None None w with
      | (ReturnValue response, w') =>
          (Ok (match text response with
               | Some raw => Str raw
               | None => Undefined
               end), w')
      | (ThrowClassifier e, w') | (ThrowError e, w') | (ThrowLastError e, w') =>
          (Ok Null, emit (EvError "Translation Error:" (Some e)) w')
      end.
Proof.
  unfold translateText. destruct (key_missing _); [reflexivity |].
  unfold try_catch, bind, await_call.
  destruct (callGeminiWithRetry _ None None w) as [[response | e | e | e] w'];
    reflexivity.
Qed.


(** No operation throws. *)
Lemma operations_never_throw (a b c d : string) (lang : Lang)
  (type : option SummaryType) (w : World) :
  (exists v, fst (getAiFeedback service env a b c d w) = Ok v)
  /\ (exists v, fst (translateText service env a lang w) = Ok v)
  /\ (exists v, fst (getAiSummary service env a b type w) = Ok v)
  /\ (exists v, fst (checkAnswerConsistency service env a b c w) = Ok v).
Proof.
  unfold getAiFeedback, translateText, getAiSummary, checkAnswerConsistency.
  destruct (key_missing _);
    [repeat split; eexists; reflexivity |].
  unfold try_catch, bind, await_call.
  repeat split.
  - destruct (callGeminiWithRetry _ None None w) as [[? | ? | ? | ?] ?];
      eexists; reflexivity.
  - destruct (callGeminiWithRetry _ None None w) as [[? | ? | ? | ?] ?];
      eexists; reflexivity.
  - destruct (callGeminiWithRetry _ None None w) as [[? | ? | ? | ?] ?];
      eexists; reflexivity.
  - destruct (callGeminiWithRetry _ None None w) as [[r | ? | ? | ?] ?];
      try (eexists; reflexivity).
    cbn [completion]. destruct (JSON_parse (text r)); eexists; reflexivity.
Qed.


(** A failure that is no rate limit makes [translateText] give up after one
    request. *)
Lemma translate_when_service_down (text : string) (targetLang : Lang)
  (error : Val) (w : World) :
  key_missing (VITE_GEMINI_API_KEY env) = false ->
  (forall n k r, service n k r = Reject error) ->
  fatal error ->
  let out := translateText service env text targetLang w in
  fst out = Ok Null
  /\ calls (snd out) = S (calls w)
  /\ delays_of (log (snd out)) = delays_of (log w).
Proof.
  intros Hkey Hfail Hfatal out. subst out.
  unfold translateText. rewrite Hkey. unfold try_catch, bind.
  rewrite (await_call_fatal _ _ error) by (try apply Hfail; exact Hfatal).
  cbn [fst snd ret console_error emit calls log].
  repeat split.
  rewrite !delays_of_app. cbn. rewrite !app_nil_r. reflexivity.
Qed.

End OperationFacts.



Lemma translate_null_or_text_witness :
  translateText (answering (Some "Xin chao")) with_key "Hello" vi fresh
  = (Ok (Str "Xin chao"),
     mkWorld 1 [EvRequest "test-key" (translateRequest "Hello" vi)])
  /\ translateText (answering (Some "Xin chao")) no_key "Hello" vi fresh
     = (Ok Null, mkWorld 0 [EvError "API Key not found" None])
  /\ translateText (failing network_error) with_key "Hello" vi fresh
     = (Ok Null,
        mkWorld 1 [EvRequest "test-key" (translateRequest "Hello" vi);
                   EvError "Translation Error:" (Some network_error)]).
Proof.
  split; [| split].
  - rewrite (translate_null_or_text (answering (Some "Xin chao")) with_key
               "Hello" vi fresh).
    reflexivity.
  - rewrite (translate_null_or_text (answering (Some "Xin chao")) no_key
               "Hello" vi fresh).
    reflexivity.
  - rewrite (translate_null_or_text (failing network_error) with_key
               "Hello" vi fresh).
    reflexivity.
Defined.

(** *** [JSON.parse] on sample texts *)

Example parse_array :
  parse "[1, 2.5e1, true, null, [], {}]"
  = Some (Arr [Num (int 1); Num (int 25); Bool true; Null; Arr []; Obj []]).
Proof. reflexivity. Qed.

Example parse_rejects :
  parse "" = None /\ parse "undefined" = None /\ parse "[1,]" = None
  /\ parse "{consistent:true}" = None /\ parse "01" = None
  /\ parse "true false" = None.
Proof. repeat split. Qed.

Example parse_verdict_text :
  parse verdict_text
  = Some (Obj [("consistent", Bool false); ("reason", Str "dates differ")]).
Proof. reflexivity. Qed.

(** *** The consistency check on sample answers *)

Example verdict_text_returned :
  fst (checkAnswerConsistency (answering (Some verdict_text)) with_key
                              "Where did you meet?" "Taipei" "Hanoi" fresh)
  = Ok (Obj [("consistent", Bool false); ("reason", Str "dates differ")]).
Proof. reflexivity. Qed.

Example prose_gives_default :
  fst (checkAnswerConsistency (answering (Some "They agree.")) with_key
                              "Q" "M" "F" fresh)
  = Ok CONSISTENT.
Proof. reflexivity. Qed.

Example no_text_gives_default :
  fst (checkAnswerConsistency (answering None) with_key "Q" "M" "F" fresh)
  = Ok CONSISTENT.
Proof. reflexivity. Qed.

Example rate_limit_gives_default :
  fst (checkAnswerConsistency (failing quota_error) with_key "Q" "M" "F"
                              fresh)
  = Ok CONSISTENT.
Proof. reflexivity. Qed.

Example maybe_text_parsed :
  parse maybe_text = Some (Obj [("consistent", Str "maybe")]).
Proof. reflexivity. Qed.

Example maybe_text_returned :
  fst (checkAnswerConsistency (answering (Some maybe_text)) with_key
                              "Q" "M" "F" fresh)
  = Ok (Obj [("consistent", Str "maybe")]).
Proof. reflexivity. Qed.

(* ===================================================================== *)
(** ** Every run of the executor *)
(* ===================================================================== *)

Section RunShape.

Context {A : Type}.
Variable outs : nat -> Outcome A.
Variable ev : Event.
Variables maxRetries initialDelay : Z.

Local Abbreviation run :=
  (retry_loop (upstream outs ev) maxRetries initialDelay).

(** Entered with a counter below [maxRetries], the loop makes [k] attempts
    that fail retryably and are retried, then one more, which decides how it
    ends. *)
Lemma upstream_run_shape (n : nat) :
  forall (i : Z) (lastError : Val) (w : World),
    Z.to_nat (maxRetries - i) = n ->
    i < maxRetries ->
    exists k : nat,
      i + Z.of_nat k < maxRetries
      /\ (forall j, (j < k)%nat ->
                    exists e, outs (calls w + j)%nat = Reject e /\ retryable e)
      /\ snd (run i lastError w)
         = mkWorld (S (calls w + k))
                   (log w ++ retried ev initialDelay maxRetries i k ++ [ev])
      /\ match fst (run i lastError w) with
         | ReturnValue v => outs (calls w + k)%nat = Resolve v
         | ThrowError e =>
             outs (calls w + k)%nat = Reject e
             /\ (fatal e
                 \/ (retryable e /\ i + Z.of_nat k = maxRetries - 1))
         | ThrowClassifier te =>
             exists e, outs (calls w + k)%nat = Reject e
                       /\ isRateLimit e = Threw te
         | ThrowLastError _ => False
         end.
Proof.
  induction n as [n IH] using lt_wf_ind. intros i lastError w Hn Hi.
  rewrite retry_loop_turn, (proj2 (Z.ltb_lt _ _) Hi).
  change (upstream outs ev w)
    with (outs (calls w), mkWorld (S (calls w)) (log w ++ [ev])).
  destruct (outs (calls w)) as [v | error] eqn:Hout.
  - exists 0%nat. cbn [fst snd retried app]. rewrite Nat.add_0_r.
    repeat split; [lia | intros j Hj; lia | exact Hout].
  - destruct (isRateLimit error) as [verdict | te] eqn:Hverdict.
    + destruct (truthy verdict) eqn:Htruthy;
        destruct (i <? maxRetries - 1) eqn:Hnext; cbn [andb].
      * apply Z.ltb_lt in Hnext. cbv zeta.
        set (w2 := sleep _ (console_warn _ _)).
        destruct (IH (Z.to_nat (maxRetries - (i + 1))) ltac:(lia)
                     (i + 1) error w2 eq_refl ltac:(lia))
          as (k & Hk & Hall & Hworld & Hexit).
        assert (Hcalls : calls w2 = S (calls w)) by reflexivity.
        assert (Hlog : log w2
                       = (log w ++ retried ev initialDelay maxRetries i 1)%list).
        { subst w2. unfold sleep, console_warn, emit. cbn [calls log retried].
          rewrite <- !app_assoc. reflexivity. }
        exists (S k). rewrite Hcalls in *.
        replace (S (calls w) + k)%nat with (calls w + S k)%nat in * by lia.
        replace (i + 1 + Z.of_nat k) with (i + Z.of_nat (S k)) in * by lia.
        repeat split.
        -- exact Hk.
        -- intros [| j] Hj.
           ++ exists error. rewrite Nat.add_0_r.
              split; [exact Hout | exists verdict; auto].
           ++ replace (calls w + S j)%nat with (S (calls w) + j)%nat by lia.
              apply Hall. lia.
        -- rewrite Hworld, Hlog. f_equal. cbn [retried].
           rewrite <- !app_assoc. reflexivity.
        -- exact Hexit.
      * apply Z.ltb_ge in Hnext.
        exists 0%nat. cbn [fst snd retried app]. rewrite Nat.add_0_r.
        repeat split; [lia | intros j Hj; lia | exact Hout |].
        right. split; [exists verdict; auto | lia].
      * exists 0%nat. cbn [fst snd retried app]. rewrite Nat.add_0_r.
        repeat split; [lia | intros j Hj; lia | exact Hout |].
        left. exists verdict; auto.
      * exists 0%nat. cbn [fst snd retried app]. rewrite Nat.add_0_r.
        repeat split; [lia | intros j Hj; lia | exact Hout |].
        left. exists verdict; auto.
    + exists 0%nat. cbn [fst snd retried app]. rewrite Nat.add_0_r.
      repeat split; [lia | intros j Hj; lia |].
      exists error. auto.
Qed.

(** With no attempt allowed the loop body is not entered. *)
Lemma upstream_no_attempt (lastError : Val) (w : World) :
  maxRetries <= 0 ->
  run 0 lastError w = (ThrowLastError lastError, w).
Proof.
  intros Hmax. rewrite retry_loop_turn.
  rewrite (proj2 (Z.ltb_nlt 0 maxRetries)) by lia. reflexivity.
Qed.

(** Attempt [k] is the first that does not fail with a retryable error and
    the classifier throws on its error: what the classifier threw is
    thrown. *)
Lemma upstream_unclassified (errs : nat -> Val) (k : nat) (error te : Val)
  (lastError : Val) (w : World) :
  Z.of_nat k < maxRetries ->
  (forall j, (j < k)%nat ->
             outs (calls w + j)%nat = Reject (errs j) /\ retryable (errs j)) ->
  outs (calls w + k)%nat = Reject error ->
  isRateLimit error = Threw te ->
  run 0 lastError w
  = (ThrowClassifier te,
     mkWorld (S (calls w + k))
             (log w ++ retried ev initialDelay maxRetries 0 k ++ [ev])).
Proof.
  intros Hk Hall Hout Hthrow.
  rewrite (retried_turns outs ev maxRetries initialDelay k 0 lastError w errs);
    [| lia | exact Hall].
  apply classifier_turn with (error := error); [lia | | exact Hthrow].
  unfold upstream. cbn [calls log]. rewrite Hout, app_assoc. reflexivity.
Qed.

End RunShape.

(** *** Measures of the retried attempts *)

Lemma sum_delays_app (l1 l2 : list Z) :
  sum_delays (l1 ++ l2) = sum_delays l1 + sum_delays l2.
Proof.
  unfold sum_delays. induction l1 as [| x l1 IH]; cbn; [reflexivity | lia].
Qed.

(** The delays of [k] retried attempts add up to [initialDelay * (2 ^ k - 1)]. *)
Lemma sum_delays_doubling (initialDelay : Z) (k : nat) :
  sum_delays (map (fun j => initialDelay * 2 ^ Z.of_nat j) (seq 0 k))
  = initialDelay * (2 ^ Z.of_nat k - 1).
Proof.
  induction k as [| k IH]; [cbn; lia |].
  rewrite seq_S, map_app, sum_delays_app, IH. cbn [map sum_delays fold_right].
  rewrite Nat2Z.inj_succ, Z.pow_succ_r by lia. cbn [Nat.add]. lia.
Qed.

Lemma delays_of_run (ev : Event) (initialDelay maxRetries : Z) (k : nat) :
  is_call ev = true ->
  delays_of (retried ev initialDelay maxRetries 0 k ++ [ev])
  = map (fun j => initialDelay * 2 ^ Z.of_nat j) (seq 0 k).
Proof.
  intros Hev. rewrite delays_of_app, delays_of_retried by exact Hev.
  assert (Hlast : delays_of [ev] = [])
    by (destruct ev; [reflexivity | reflexivity | discriminate Hev ..]).
  rewrite Hlast, app_nil_r. apply map_ext. intros j. reflexivity.
Qed.

Lemma attempts_of_run (ev : Event) (initialDelay maxRetries : Z) (k : nat) :
  is_call ev = true ->
  attempts_of (retried ev initialDelay maxRetries 0 k ++ [ev]) = S k.
Proof.
  intros Hev. rewrite attempts_of_app, attempts_of_retried by exact Hev.
  unfold attempts_of. cbn [filter]. rewrite Hev. cbn. lia.
Qed.

(* ===================================================================== *)
(** ** More on the executor *)
(* ===================================================================== *)

(** Every run with at least one attempt allowed is of one kind: [k] attempts
    that fail with retryable errors, each followed by a warning and a sleep,
    then one last call, with [k + 1 <= maxRetries].  The run returns the value
    of that last call if it resolves.  It throws the error of that last call
    if the error is held not retryable, or is retryable and no attempt is
    left.  It throws what the classifier threw if the classifier fails on
    that error.  No sleep follows the last call. *)
Theorem every_run_characterised (A : Type) (outs : nat -> Outcome A)
  (mr idl : option Z) (w : World) :
  1 <= default_to 5 mr ->
  exists k : nat,
    Z.of_nat k < default_to 5 mr
    /\ (forall j, (j < k)%nat ->
                  exists e, outs (calls w + j)%nat = Reject e /\ retryable e)
    /\ snd (callGeminiWithRetry (scripted outs) mr idl w)
       = mkWorld (S (calls w + k))
                 (log w ++ retried EvCall (default_to 5000 idl)
                                   (default_to 5 mr) 0 k ++ [EvCall])
    /\ match fst (callGeminiWithRetry (scripted outs) mr idl w) with
       | ReturnValue v => outs (calls w + k)%nat = Resolve v
       | ThrowError e =>
           outs (calls w + k)%nat = Reject e
           /\ (fatal e
               \/ (retryable e /\ Z.of_nat k = default_to 5 mr - 1))
       | ThrowClassifier te =>
           exists e, outs (calls w + k)%nat = Reject e
                     /\ isRateLimit e = Threw te
       | ThrowLastError _ => False
       end.
Proof.
  intros Hmax. unfold callGeminiWithRetry, scripted.
  destruct (upstream_run_shape outs EvCall (default_to 5 mr)
              (default_to 5000 idl) (Z.to_nat (default_to 5 mr - 0)) 0
              Undefined w eq_refl ltac:(lia))
    as (k & Hk & Hall & Hworld & Hexit).
  exists k. rewrite Z.add_0_l in *. auto.
Qed.

Lemma every_run_characterised_witness :
  exists k : nat,
    Z.of_nat k < 5
    /\ (forall j, (j < k)%nat ->
                  exists e, limited_then (Reject network_error) (0 + j)%nat
                            = Reject e /\ retryable e)
    /\ snd (callGeminiWithRetry
              (scripted (limited_then (Reject network_error)))
              None None fresh)
       = mkWorld (S (0 + k)) ([] ++ retried EvCall 5000 5 0 k ++ [EvCall])
    /\ match fst (callGeminiWithRetry
                    (scripted (limited_then (Reject network_error)))
                    None None fresh) with
       | ReturnValue v =>
           limited_then (Reject network_error) (0 + k)%nat = Resolve v
       | ThrowError e =>
           limited_then (Reject network_error) (0 + k)%nat = Reject e
           /\ (fatal e \/ (retryable e /\ Z.of_nat k = 5 - 1))
       | ThrowClassifier te =>
           exists e, limited_then (Reject network_error) (0 + k)%nat
                     = Reject e /\ isRateLimit e = Threw te
       | ThrowLastError _ => False
       end.
Proof.
  apply (every_run_characterised nat (limited_then (Reject network_error))
           None None fresh).
  cbn. lia.
Defined.

(** Whatever the outcomes and whatever [maxRetries], the executor makes at
    most [maxRetries] calls (none when [maxRetries <= 0]), and the calls it
    makes are all the calls the world sees. *)
Theorem attempts_never_exceed_maxRetries (A : Type) (outs : nat -> Outcome A)
  (mr idl : option Z) (w : World) :
  exists l : list Event,
    log (snd (callGeminiWithRetry (scripted outs) mr idl w))
    = (log w ++ l)%list
    /\ calls (snd (callGeminiWithRetry (scripted outs) mr idl w))
       = (calls w + attempts_of l)%nat
    /\ (attempts_of l <= Z.to_nat (default_to 5%Z mr))%nat.
Proof.
  unfold callGeminiWithRetry, scripted.
  destruct (Z_lt_le_dec 0 (default_to 5 mr)) as [Hpos | Hle].
  - destruct (upstream_run_shape outs EvCall (default_to 5 mr)
                (default_to 5000 idl) (Z.to_nat (default_to 5 mr - 0)) 0
                Undefined w eq_refl Hpos)
      as (k & Hk & _ & Hworld & _).
    rewrite Hworld. cbn [calls log]. eexists. split; [reflexivity |].
    rewrite attempts_of_run by reflexivity. split; lia.
  - rewrite upstream_no_attempt by exact Hle. cbn [snd].
    exists []. rewrite app_nil_r. cbn. split; [reflexivity | split; lia].
Qed.

(** Whatever the outcomes, the delays the executor sleeps are
    [initialDelay * 2 ^ 0, ..., initialDelay * 2 ^ (k - 1)] for some
    [k <= maxRetries - 1], in this order: [initialDelay * (2 ^ k - 1)]
    milliseconds in all.  The trace, when not empty, ends with a call: the
    executor never sleeps after its last attempt. *)
Theorem delays_double_and_add_up (A : Type) (outs : nat -> Outcome A)
  (mr idl : option Z) (w : World) :
  exists (l : list Event) (k : nat),
    log (snd (callGeminiWithRetry (scripted outs) mr idl w))
    = (log w ++ l)%list
    /\ delays_of l
       = map (fun j => default_to 5000 idl * 2 ^ Z.of_nat j) (seq 0 k)
    /\ Z.of_nat k <= Z.max 0 (default_to 5 mr - 1)
    /\ sum_delays (delays_of l)
       = default_to 5000 idl * (2 ^ Z.of_nat k - 1)
    /\ (l = [] \/ exists l', l = (l' ++ [EvCall])%list).
Proof.
  unfold callGeminiWithRetry, scripted.
  destruct (Z_lt_le_dec 0 (default_to 5 mr)) as [Hpos | Hle].
  - destruct (upstream_run_shape outs EvCall (default_to 5 mr)
                (default_to 5000 idl) (Z.to_nat (default_to 5 mr - 0)) 0
                Undefined w eq_refl Hpos)
      as (k & Hk & _ & Hworld & _).
    rewrite Hworld. cbn [calls log]. eexists. exists k.
    split; [reflexivity |].
    rewrite delays_of_run by reflexivity.
    repeat split; [lia | apply sum_delays_doubling |].
    right. eexists. reflexivity.
  - rewrite upstream_no_attempt by exact Hle. cbn [snd].
    exists [], 0%nat. rewrite app_nil_r. cbn.
    repeat split; [lia | lia | left; reflexivity].
Qed.

(** With [maxRetries <= 0] the call is never made: the executor throws
    [undefined] and leaves the world as it was. *)
Theorem no_call_without_attempts (A : Type) (apiCall : ApiCall A)
  (mr idl : option Z) (w : World) :
  default_to 5 mr <= 0 ->
  callGeminiWithRetry apiCall mr idl w = (ThrowLastError Undefined, w).
Proof.
  intros Hmax. unfold callGeminiWithRetry. rewrite retry_loop_turn.
  rewrite (proj2 (Z.ltb_nlt 0 _)) by lia. reflexivity.
Qed.

Lemma no_call_without_attempts_witness :
  callGeminiWithRetry (scripted (fun _ => Resolve 7%nat)) (Some (-3)) None
                      fresh
  = (ThrowLastError Undefined, fresh).
Proof.
  apply (no_call_without_attempts nat (scripted (fun _ => Resolve 7%nat))
           (Some (-3)) None fresh).
  cbn. lia.
Defined.

Lemma fatal_error_after_retries_witness :
  callGeminiWithRetry (scripted (limited_then (Reject network_error)))
                      None None fresh
  = (ThrowError network_error,
     mkWorld 3 (retried EvCall 5000 5 0 2 ++ [EvCall])).
Proof.
  apply (fatal_error_after_retries nat (limited_then (Reject network_error))
           (fun _ => quota_error) 2 network_error None None fresh).
  - cbn. lia.
  - intros j Hj. split.
    + unfold limited_then. cbn [calls fresh Nat.add].
      destruct (Nat.ltb_spec j 2); [reflexivity | lia].
    + exists (Bool true). split; reflexivity.
  - reflexivity.
  - exists (Bool false). split; reflexivity.
Defined.

(** When the classifier throws on the error of an attempt, the executor
    stops there and its caller gets what the classifier threw, a
    [TypeError], in place of the error of the call; nothing follows the
    call. *)
Theorem unclassified_error_replaced (A : Type) (outs : nat -> Outcome A)
  (errs : nat -> Val) (k : nat) (error te : Val) (mr idl : option Z)
  (w : World) :
  Z.of_nat k < default_to 5 mr ->
  (forall j, (j < k)%nat ->
             outs (calls w + j)%nat = Reject (errs j) /\ retryable (errs j)) ->
  outs (calls w + k)%nat = Reject error ->
  isRateLimit error = Threw te ->
  callGeminiWithRetry (scripted outs) mr idl w
  = (ThrowClassifier te,
     mkWorld (S (calls w + k))
             (log w ++ retried EvCall (default_to 5000 idl) (default_to 5 mr)
                               0 k ++ [EvCall]))
  /\ completion (fst (callGeminiWithRetry (scripted outs) mr idl w))
     = Threw te.
Proof.
  intros Hk Hall Hout Hthrow. unfold callGeminiWithRetry, scripted.
  rewrite (upstream_unclassified outs EvCall _ _ errs k error te)
    by assumption.
  split; reflexivity.
Qed.

Lemma unclassified_error_replaced_witness :
  callGeminiWithRetry (scripted (limited_then (Reject Undefined)))
                      None None fresh
  = (ThrowClassifier
       (TypeError "Cannot read properties of undefined (reading 'includes')"),
     mkWorld 3 (retried EvCall 5000 5 0 2 ++ [EvCall]))
  /\ completion (fst (callGeminiWithRetry
                        (scripted (limited_then (Reject Undefined)))
                        None None fresh))
     = Threw (TypeError
                "Cannot read properties of undefined (reading 'includes')").
Proof.
  apply (unclassified_error_replaced nat (limited_then (Reject Undefined))
           (fun _ => quota_error) 2 Undefined _ None None fresh).
  - cbn. lia.
  - intros j Hj. split.
    + unfold limited_then. cbn [calls fresh Nat.add].
      destruct (Nat.ltb_spec j 2); [reflexivity | lia].
    + exists (Bool true). split; reflexivity.
  - reflexivity.
  - reflexivity.
Defined.

(* ===================================================================== *)
(** ** More on the classifier *)
(* ===================================================================== *)

(** [status] and [code] decide first: an error whose [status] or [code] is
    the number 429 is retryable whatever else it holds, also when its message
    is a value the later tests would throw on. *)
Theorem status_or_code_429_retryable (error : Val) :
  field_is_429 error "status" \/ field_is_429 error "code" ->
  retryable error.
Proof.
  intros [Hs | Hc]; apply field_is_429_spec in Hs || apply field_is_429_spec in Hc;
    exists (Bool true); (split; [| reflexivity]).
  - apply status_429_verdict, Hs.
  - apply code_429_verdict, Hc.
Qed.

Lemma status_or_code_429_retryable_witness : retryable bare_status_error.
Proof.
  apply (status_or_code_429_retryable bare_status_error).
  left. exists (int 429). split; reflexivity.
Defined.

(** The classifier throws exactly on the errors whose [status] and [code] are
    not 429 and that are [undefined], which has no serialization to search,
    or carry a message that is neither a string nor an array. *)
Theorem classifier_throws_iff (error : Val) :
  unclassified error
  <-> ~ field_is_429 error "status"
      /\ ~ field_is_429 error "code"
      /\ (error = Undefined \/ ~ message_searchable error).
Proof.
  unfold unclassified. rewrite <- !field_is_429_spec. split.
  - intros [te Hthrow]. repeat split.
    + intros Hs. rewrite (status_429_verdict error Hs) in Hthrow.
      discriminate Hthrow.
    + intros Hc. rewrite (code_429_verdict error Hc) in Hthrow.
      discriminate Hthrow.
    + assert (Hdef : error = Undefined \/ error <> Undefined)
        by (destruct error; (left; reflexivity) || (right; discriminate)).
      destruct Hdef as [Hdef | Hdef]; [left; exact Hdef | right].
      intros Hmsg.
      destruct (classifier_total error Hmsg Hdef) as [(v & Hv & _) | (v & Hv & _)];
        rewrite Hv in Hthrow; discriminate Hthrow.
  - intros (Hs & Hc & Hwhy).
    apply not_true_is_false in Hs, Hc.
    unfold isRateLimit, message_includes, json_includes.
    rewrite !or_else_assoc, Hs, Hc. cbn [or_else truthy].
    destruct Hwhy as [-> | Hmsg]; [eexists; reflexivity |].
    unfold message_searchable in Hmsg.
    destruct (get_opt error "message");
      try (exfalso; apply Hmsg; exact I); eexists; reflexivity.
Qed.


(** An error that shows no sign of a rate limit is never retried: whatever
    its shape, the first attempt that meets it is the only one, and the
    executor throws that error, or, when the classifier fails on it, what the
    classifier threw. *)
Theorem unsigned_error_never_retried (A : Type) (outs : nat -> Outcome A)
  (error : Val) (mr idl : option Z) (w : World) :
  1 <= default_to 5 mr ->
  outs (calls w) = Reject error ->
  ~ rate_limit_signature error ->
  snd (callGeminiWithRetry (scripted outs) mr idl w)
  = mkWorld (S (calls w)) (log w ++ [EvCall])
  /\ (fst (callGeminiWithRetry (scripted outs) mr idl w) = ThrowError error
      \/ exists te,
          isRateLimit error = Threw te
          /\ fst (callGeminiWithRetry (scripted outs) mr idl w)
             = ThrowClassifier te).
Proof.
  intros Hmax Hout Hnone. unfold callGeminiWithRetry, scripted.
  assert (Hcall : upstream outs EvCall w
                  = (Reject error, mkWorld (S (calls w)) (log w ++ [EvCall])))
    by (unfold upstream; rewrite Hout; reflexivity).
  destruct (isRateLimit error) as [verdict | te] eqn:Hverdict.
  - destruct (truthy verdict) eqn:Htruthy.
    + exfalso. apply Hnone, retryable_has_signature.
      exists verdict. auto.
    + rewrite (fatal_turn (upstream outs EvCall) (default_to 5 mr)
                 (default_to 5000 idl) 0 Undefined error w _
                 ltac:(lia) Hcall)
        by (exists verdict; auto).
      split; [reflexivity | left; reflexivity].
  - rewrite (classifier_turn (upstream outs EvCall) (default_to 5 mr)
               (default_to 5000 idl) 0 Undefined error te w _
               ltac:(lia) Hcall Hverdict).
    split; [reflexivity |].
    right. exists te. split; reflexivity.
Qed.

Lemma unsigned_error_never_retried_witness :
  snd (callGeminiWithRetry
         (scripted (fun _ => Reject (A := unit) network_error))
         None None fresh)
  = mkWorld 1 ([] ++ [EvCall])
  /\ (fst (callGeminiWithRetry
             (scripted (fun _ => Reject (A := unit) network_error))
             None None fresh) = ThrowError network_error
      \/ exists te,
          isRateLimit network_error = Threw te
          /\ fst (callGeminiWithRetry
                    (scripted (fun _ => Reject (A := unit) network_error))
                    None None fresh) = ThrowClassifier te).
Proof.
  apply (unsigned_error_never_retried unit
           (fun _ => Reject network_error) network_error None None fresh).
  - cbn. lia.
  - reflexivity.
  - intros Hsig.
    apply (signature_gives_verdict network_error I) in Hsig.
    vm_compute in Hsig. discriminate Hsig.
Defined.
(* ===================================================================== *)
(** ** The parser reads what the serializer writes *)
(* ===================================================================== *)

Lemma run_app (a b : string) :
  forall p : PState,
    run (a ++ b) p = match run a p with
                     | Some p' => run b p'
                     | None => None
                     end.
Proof.
  induction a as [| c a IH]; intros p; cbn [append run]; [reflexivity |].
  destruct (step c p); [apply IH | reflexivity].
Qed.

(** One quoted character is read back as that character. *)
Lemma run_quote_char (c : ascii) (st : list Frame) (iskey : bool)
  (rc : list ascii) :
  run (quote_char c) (in_string st iskey rc)
  = Some (in_string st iskey (c :: rc)).
Proof.
  destruct c as [[|] [|] [|] [|] [|] [|] [|] [|]]; reflexivity.
Qed.

Lemma run_quote_body (s rest : string) :
  forall (st : list Frame) (iskey : bool) (rc : list ascii),
    run (quote_body s ++ rest) (in_string st iskey rc)
    = run rest (in_string st iskey (rev (list_ascii_of_string s) ++ rc)).
Proof.
  induction s as [| c s IH]; intros st iskey rc; [reflexivity |].
  cbn [quote_body list_ascii_of_string rev].
  rewrite append_assoc, run_app, run_quote_char, IH, <- app_assoc.
  reflexivity.
Qed.

Lemma string_of_rev_rev (s : string) :
  string_of_list_ascii (rev (rev (list_ascii_of_string s) ++ [])) = s.
Proof.
  rewrite app_nil_r, rev_involutive. apply string_of_list_ascii_of_string.
Qed.

(** A string value is read back from its quoted form, whatever its
    characters. *)
Lemma parse_quote (s : string) : parse (quote s) = Some (Str s).
Proof.
  unfold parse, quote. cbn.
  change (mkPState [] (MString false [] None SPlain) None)
    with (in_string [] false []).
  rewrite run_quote_body. cbn. rewrite string_of_rev_rev. reflexivity.
Qed.

(** The serialization of a consistency result is read back as that result. *)
Lemma parse_consistency_result (b : bool) (reason : option string) (t : string) :
  stringify (consistency_result b reason) = Some t ->
  parse t = Some (consistency_result b reason).
Proof.
  intros [= <-].
  destruct reason as [s |]; [| destruct b; reflexivity].
  unfold parse.
  destruct b; cbn; rewrite append_assoc;
    match goal with
    | |- context [run _ (mkPState ?st (MString ?k ?rc None SPlain) None)] =>
        change (mkPState st (MString k rc None SPlain) None)
          with (in_string st k rc)
    end;
    rewrite run_quote_body; cbn; rewrite string_of_rev_rev; reflexivity.
Qed.

(** Induction on values that reaches the elements of arrays and the values
    of properties. *)
Lemma Val_nested_ind (P : Val -> Prop) :
  P Undefined -> P Null -> (forall b, P (Bool b)) -> (forall n, P (Num n)) ->
  (forall s, P (Str s)) ->
  (forall elems, Forall P elems -> P (Arr elems)) ->
  (forall props, Forall (fun kv => P (snd kv)) props -> P (Obj props)) ->
  (forall m props, Forall (fun kv => P (snd kv)) props -> P (Err m props)) ->
  forall v, P v.
Proof.
  intros HU HN HB HNum HS HA HO HE.
  fix IH 1. intros [ | | b | n | s | elems | props | m props].
  - exact HU.
  - exact HN.
  - apply HB.
  - apply HNum.
  - apply HS.
  - apply HA. induction elems as [| x elems IHl]; constructor;
      [apply IH | exact IHl].
  - apply HO. induction props as [| [k x] props IHl]; constructor;
      [apply IH | exact IHl].
  - apply HE. induction props as [| [k x] props IHl]; constructor;
      [apply IH | exact IHl].
Qed.

Lemma plain_stringify (v : Val) :
  plain v = true -> stringify v = Some (element stringify v).
Proof.
  unfold element. destruct v; try discriminate; try reflexivity.
  destruct b; reflexivity.
Qed.

Lemma set_prop_fresh (k : string) (v : Val) (ps : list (string * Val)) :
  existsb (String.eqb k) (map fst ps) = false ->
  set_prop k v ps = (ps ++ [(k, v)])%list.
Proof.
  induction ps as [| [k' x] ps IH]; cbn; [reflexivity |].
  intros H. apply orb_false_elim in H as [Hk Hrest].
  rewrite Hk, IH by exact Hrest. reflexivity.
Qed.

(** The elements of an array, after the first bracket. *)
Lemma run_elements (st : list Frame) (rest : string) :
  forall (l : list Val) (x : Val) (acc : list Val) (first : bool),
    Forall (fun v => forall st' rest' first',
                run (element stringify v ++ rest') (at_value st' first')
                = run rest' (complete v st')) (x :: l) ->
    run (concat "," (map (element stringify) (x :: l)) ++ "]" ++ rest)
        (at_value (FArr acc :: st) first)
    = run rest (complete (Arr (rev acc ++ x :: l)) st).
Proof.
  induction l as [| y l IH]; intros x acc first Hall;
    inversion Hall as [| ? ? Hx Hl]; subst.
  - cbn [map concat]. rewrite Hx. cbn. reflexivity.
  - change (concat "," (map (element stringify) (x :: y :: l)))
      with (element stringify x ++ ","
            ++ concat "," (map (element stringify) (y :: l))).
    rewrite !append_assoc, Hx.
    etransitivity; [exact (IH y (x :: acc) false Hl) |].
    cbn [rev]. rewrite <- app_assoc. reflexivity.
Qed.

Lemma distinct_app_fresh (k : string) (l1 l2 : list string) :
  distinct (l1 ++ k :: l2) = true -> existsb (String.eqb k) l1 = false.
Proof.
  induction l1 as [| a l1 IH]; cbn; [reflexivity |].
  intros H. apply andb_prop in H as [Ha Hrest].
  rewrite (IH Hrest), orb_false_r.
  apply negb_true_iff in Ha. rewrite existsb_app in Ha.
  apply orb_false_elim in Ha as [_ Ha]. cbn in Ha.
  apply orb_false_elim in Ha as [Ha _]. rewrite String.eqb_sym. exact Ha.
Qed.

(** One property of an object: its key, the colon and its value. *)
Lemma run_entry (st : list Frame) (k key0 : string) (x : Val)
  (acc : list (string * Val)) (first : bool) (rest : string) :
  (forall st' rest' first',
      run (element stringify x ++ rest') (at_value st' first')
      = run rest' (complete x st')) ->
  run ((quote k ++ ":" ++ element stringify x) ++ rest)
      (mkPState (FObj acc key0 :: st) (MKey first) None)
  = run rest (mkPState (FObj (set_prop k x acc) k :: st) MAfter None).
Proof.
  intros Hx. unfold quote. rewrite !append_assoc. cbn [append].
  rewrite !append_assoc.
  change (run (String dquote ?t) (mkPState ?s (MKey first) None))
    with (run t (in_string s true [])).
  rewrite run_quote_body. cbn [append].
  change (run (String dquote (String ":" ?t))
              (in_string ?s true ?rc))
    with (run t (at_value
                   (FObj acc (string_of_list_ascii (rev rc)) :: st) false)).
  rewrite string_of_rev_rev, Hx. reflexivity.
Qed.

(** The properties of an object, after the first brace. *)
Lemma run_members (st : list Frame) (rest : string) :
  forall (ps : list (string * Val)) (k : string) (x : Val)
         (acc : list (string * Val)) (key0 : string) (first : bool),
    Forall (fun kv => forall st' rest' first',
                run (element stringify (snd kv) ++ rest') (at_value st' first')
                = run rest' (complete (snd kv) st')) ((k, x) :: ps) ->
    forallb (fun kv => plain (snd kv)) ((k, x) :: ps) = true ->
    distinct (map fst (acc ++ (k, x) :: ps)) = true ->
    run (concat "," (members stringify ((k, x) :: ps)) ++ "}" ++ rest)
        (mkPState (FObj acc key0 :: st) (MKey first) None)
    = run rest (complete (Obj (acc ++ (k, x) :: ps)) st).
Proof.
  induction ps as [| [k2 x2] ps IH]; intros k x acc key0 first Hall Hplain Hkeys;
    inversion Hall as [| ? ? Hx Hl]; subst; cbn [snd] in Hx;
    cbn [forallb snd] in Hplain; apply andb_prop in Hplain as [Hpx Hpl];
    pose proof Hkeys as Hfresh; rewrite map_app in Hfresh;
    apply distinct_app_fresh in Hfresh;
    cbn [members]; rewrite (plain_stringify x Hpx).
  - cbn [concat]. rewrite (run_entry st k key0 x acc first _ Hx).
    rewrite (set_prop_fresh k x acc Hfresh). reflexivity.
  - cbn [forallb snd] in Hpl. pose proof Hpl as Hpl'.
    apply andb_prop in Hpl' as [Hpx2 _].
    cbn [members]. rewrite (plain_stringify x2 Hpx2).
    change (concat "," (?e :: ?e2 :: ?l)) with (e ++ "," ++ concat "," (e2 :: l)).
    rewrite (append_assoc _ ("," ++ _)).
    rewrite (run_entry st k key0 x acc first _ Hx).
    rewrite (set_prop_fresh k x acc Hfresh).
    assert (Hnext :
              concat "," (members stringify ((k2, x2) :: ps))
              = concat "," ((quote k2 ++ ":" ++ element stringify x2)
                            :: members stringify ps))
      by (cbn [members]; rewrite (plain_stringify x2 Hpx2); reflexivity).
    rewrite <- Hnext. rewrite append_assoc.
    etransitivity;
      [exact (IH k2 x2 (acc ++ [(k, x)])%list k false Hl Hpl
                ltac:(rewrite <- app_assoc; exact Hkeys)) |].
    rewrite <- app_assoc. reflexivity.
Qed.

(** Read in any place where a value may stand, the serialization of a plain
    value gives that value. *)
Lemma run_plain (v : Val) :
  plain v = true ->
  forall (st : list Frame) (rest : string) (first : bool),
    run (element stringify v ++ rest) (at_value st first)
    = run rest (complete v st).
Proof.
  induction v as [ | | b | n | s | elems IH | props IH | m props IH]
    using Val_nested_ind; intros Hplain st rest first;
    try discriminate Hplain.
  - reflexivity.
  - destruct b; reflexivity.
  - unfold element. cbn [stringify]. unfold quote. cbn [append].
    rewrite !append_assoc.
    change (run (String dquote ?t) (at_value ?s first))
      with (run t (in_string s false [])).
    rewrite run_quote_body. cbn [append].
    change (run (String dquote ?t) (in_string ?s false ?rc))
      with (run t (complete (Str (string_of_list_ascii (rev rc))) s)).
    rewrite string_of_rev_rev. reflexivity.
  - unfold element. cbn [stringify plain] in *.
    destruct elems as [| x elems]; [reflexivity |].
    rewrite !append_assoc. cbn [append].
    change (run (String "[" ?t) (at_value ?s first))
      with (run t (at_value (FArr [] :: s) true)).
    assert (Hall : Forall (fun v => forall st' rest' first',
                run (element stringify v ++ rest') (at_value st' first')
                = run rest' (complete v st')) (x :: elems)).
    { rewrite Forall_forall in *. intros y Hy. apply IH; [exact Hy |].
      rewrite forallb_forall in Hplain. apply Hplain, Hy. }
    exact (run_elements st rest elems x [] true Hall).
  - unfold element. cbn [stringify plain] in *.
    apply andb_prop in Hplain as [Hplain Hkeys].
    destruct props as [| [k x] props]; [reflexivity |].
    rewrite !append_assoc. cbn [append].
    change (run (String "{" ?t) (at_value ?s first))
      with (run t (mkPState (FObj [] "" :: s) (MKey true) None)).
    assert (Hall : Forall (fun kv => forall st' rest' first',
                run (element stringify (snd kv) ++ rest') (at_value st' first')
                = run rest' (complete (snd kv) st')) ((k, x) :: props)).
    { rewrite Forall_forall in *. intros kv Hkv. apply IH; [exact Hkv |].
      rewrite forallb_forall in Hplain. apply Hplain, Hkv. }
    exact (run_members st rest props k x [] "" true Hall Hplain Hkeys).
Qed.

(** [JSON.parse(JSON.stringify(v))] is [v], for every value made of [null],
    booleans, strings, arrays and objects with distinct keys. *)
Lemma parse_stringify (v : Val) (t : string) :
  plain v = true ->
  stringify v = Some t ->
  parse t = Some v.
Proof.
  intros Hplain Ht. rewrite (plain_stringify v Hplain) in Ht.
  injection Ht as <-. unfold parse.
  rewrite <- (append_nil_r (element stringify v)).
  change (mkPState [] (MValue false) None) with (at_value [] false).
  rewrite (run_plain v Hplain). reflexivity.
Qed.

(* ===================================================================== *)
(** ** More on the prompt operations *)
(* ===================================================================== *)

Lemma requests_of_app (l1 l2 : list Event) :
  requests_of (l1 ++ l2) = (requests_of l1 ++ requests_of l2)%list.
Proof. unfold requests_of. apply flat_map_app. Qed.

Lemma requests_of_retried (key : string) (r : Request)
  (initialDelay maxRetries : Z) (k : nat) :
  forall i : Z,
    requests_of (retried (EvRequest key r) initialDelay maxRetries i k)
    = repeat (key, r) k.
Proof.
  induction k as [| k IH]; intros i; [reflexivity |].
  cbn [retried app repeat]. unfold requests_of in *. cbn [flat_map app].
  f_equal. apply IH.
Qed.

(** A trace of [k] retried requests and a last one, and whatever is logged
    after it that is no call and no sleep, is a bounded path. *)
Lemma bounded_path_intro (key : string) (r : Request) (k : nat)
  (tail : list Event) (w w' : World) :
  (k < 5)%nat ->
  calls w' = S (calls w + k) ->
  log w' = (log w ++ (retried (EvRequest key r) 5000 5 0 k
                      ++ [EvRequest key r]) ++ tail)%list ->
  requests_of tail = [] ->
  delays_of tail = [] ->
  bounded_path key r w w'.
Proof.
  intros Hk Hcalls Hlog Hreq Hdel.
  exists ((retried (EvRequest key r) 5000 5 0 k ++ [EvRequest key r]) ++ tail)%list,
    (S k).
  repeat split; try lia; try exact Hlog.
  - rewrite !requests_of_app, requests_of_retried, Hreq, app_nil_r.
    cbn [requests_of flat_map app]. symmetry. apply repeat_cons.
  - rewrite delays_of_app, delays_of_run, Hdel, app_nil_r by reflexivity.
    rewrite sum_delays_doubling.
    assert (0 < 2 ^ Z.of_nat k) by (apply Z.pow_pos_nonneg; lia). lia.
  - rewrite delays_of_app, delays_of_run, Hdel, app_nil_r by reflexivity.
    rewrite sum_delays_doubling.
    assert (2 ^ Z.of_nat k <= 2 ^ 4) by (apply Z.pow_le_mono_r; lia).
    change (2 ^ 4) with 16 in *. lia.
Qed.

Section OperationEdges.

Variable service : nat -> string -> Request -> Outcome Response.
Variable env : Env.

(** The call path of an operation: up to four retried requests and a last
    one. *)
Lemma await_call_shape (ai : GoogleGenAI) (r : Request) (w : World) :
  exists k : nat,
    (k < 5)%nat
    /\ snd (await_call service ai r w)
       = mkWorld (S (calls w + k))
                 (log w ++ retried (EvRequest (apiKey ai) r) 5000 5 0 k
                        ++ [EvRequest (apiKey ai) r]).
Proof.
  unfold await_call, callGeminiWithRetry, generateContent. cbn [default_to].
  destruct (upstream_run_shape (fun n => service n (apiKey ai) r)
              (EvRequest (apiKey ai) r) 5 5000 (Z.to_nat (5 - 0)) 0
              Undefined w eq_refl ltac:(lia))
    as (k & Hk & _ & Hworld & _).
  exists k. split; [lia |].
  destruct (retry_loop _ 5 5000 0 Undefined w) as [x w']. exact Hworld.
Qed.


(** The call path in full: after [k < 5] requests rejected with retryable
    errors, the answer to the next request decides how the call path ends. *)
Lemma await_call_outcome (ai : GoogleGenAI) (r : Request) (w : World) :
  exists k : nat,
    (k < 5)%nat
    /\ (forall j, (j < k)%nat ->
                  exists e, service (calls w + j)%nat (apiKey ai) r = Reject e
                            /\ retryable e)
    /\ await_call service ai r w
       = (match service (calls w + k)%nat (apiKey ai) r with
          | Resolve response => Ok response
          | Reject e => Threw (match isRateLimit e with
                               | Ok _ => e
                               | Threw te => te
                               end)
          end,
          mkWorld (S (calls w + k))
                  (log w ++ retried (EvRequest (apiKey ai) r) 5000 5 0 k
                         ++ [EvRequest (apiKey ai) r])).
Proof.
  unfold await_call, callGeminiWithRetry, generateContent. cbn [default_to].
  destruct (upstream_run_shape (fun n => service n (apiKey ai) r)
              (EvRequest (apiKey ai) r) 5 5000 (Z.to_nat (5 - 0)) 0
              Undefined w eq_refl ltac:(lia))
    as (k & Hk & Hall & Hworld & Hexit).
  exists k. split; [lia |]. split; [exact Hall |].
  destruct (retry_loop _ 5 5000 0 Undefined w) as [x w'].
  cbn [fst snd] in Hworld, Hexit. subst w'.
  destruct x as [v | te | e | e]; cbn [completion].
  - rewrite Hexit. reflexivity.
  - destruct Hexit as (e & Hout & Hthrow). rewrite Hout, Hthrow. reflexivity.
  - destruct Hexit as [Hout Hverdict]. rewrite Hout.
    destruct Hverdict as [(v & Hv & _) | [(v & Hv & _) _]]; rewrite Hv;
      reflexivity.
  - contradiction.
Qed.

(** The requests of [getAiSummary]: the summary request of its type, between
    one and five times. *)
Lemma summary_path (answer targetLangName : string)
  (type : option SummaryType) (w : World) :
  key_missing (VITE_GEMINI_API_KEY env) = false ->
  bounded_path (apiKey (client (VITE_GEMINI_API_KEY env)))
               (summaryRequest answer targetLangName
                               (default_to concise type)) w
               (snd (getAiSummary service env answer targetLangName type w)).
Proof.
  intros Hkey. unfold getAiSummary. rewrite Hkey.
  unfold try_catch, bind, ret, console_error.
  destruct (await_call_shape (client (VITE_GEMINI_API_KEY env))
              (summaryRequest answer targetLangName (default_to concise type))
              w) as (k & Hk & Hw).
  destruct type as [t |]; cbn [default_to] in *;
    destruct (await_call _ _ _ w) as [[response | e] w1]; cbn [snd] in *;
    subst w1;
    try (apply (bounded_path_intro _ _ k []); cbn [calls log]; auto;
         rewrite app_nil_r; reflexivity);
    (apply (bounded_path_intro _ _ k [EvError "AI Summary Error:" (Some e)]);
     cbn [calls log emit]; auto; rewrite <- !app_assoc; reflexivity).
Qed.


(** With a key, what [getAiSummary] returns is decided by the answer to the
    last request it sends, after [k < 5] requests rejected with retryable
    errors.  When that request is answered it returns the text of the
    response as it is (the string, or [undefined] when the response has
    none) and logs no error.  When it is rejected it logs
    "AI Summary Error:" with the error (or with what the classifier threw on
    it) and returns [null]. *)
Theorem summary_null_or_text (answer targetLangName : string)
  (type : option SummaryType) (w : World) :
  let key := apiKey (client (VITE_GEMINI_API_KEY env)) in
  let r := summaryRequest answer targetLangName (default_to concise type) in
  key_missing (VITE_GEMINI_API_KEY env) = false ->
  exists k : nat,
    (k < 5)%nat
    /\ (forall j, (j < k)%nat ->
                  exists e, service (calls w + j)%nat key r = Reject e
                            /\ retryable e)
    /\ getAiSummary service env answer targetLangName type w
       = match service (calls w + k)%nat key r with
         | Resolve response =>
             (Ok (match text response with
                  | Some raw => Str raw
                  | None => Undefined
                  end),
              mkWorld (S (calls w + k))
                      (log w ++ retried (EvRequest key r) 5000 5 0 k
                             ++ [EvRequest key r]))
         | Reject e =>
             (Ok Null,
              mkWorld (S (calls w + k))
                      (log w ++ retried (EvRequest key r) 5000 5 0 k
                             ++ [EvRequest key r;
                                 EvError "AI Summary Error:"
                                   (Some (match isRateLimit e with
                                          | Ok _ => e
                                          | Threw te => te
                                          end))]))
         end.
Proof.
  intros key r Hkey. subst key r. unfold getAiSummary. rewrite Hkey.
  unfold try_catch, bind, ret, console_error.
  destruct (await_call_outcome (client (VITE_GEMINI_API_KEY env))
              (summaryRequest answer targetLangName (default_to concise type))
              w) as (k & Hk & Hall & Hcall).
  exists k. split; [exact Hk |]. split; [exact Hall |].
  destruct type as [t |]; cbn [default_to] in *; rewrite Hcall;
    (destruct (service (calls w + k)%nat _ _) as [response | e];
     [reflexivity |]);
    unfold emit; cbn [calls log]; rewrite <- !app_assoc; reflexivity.
Qed.

(** With a key, whatever the service does, each operation sends one and the
    same request, under the same key, between one and five times, and sleeps
    no more than 75 seconds in all. *)
Theorem operations_resend_one_request (a b c d : string) (lang : Lang)
  (type : option SummaryType) (w : World) :
  key_missing (VITE_GEMINI_API_KEY env) = false ->
  bounded_path (apiKey (client (VITE_GEMINI_API_KEY env)))
               (feedbackRequest a b c d) w
               (snd (getAiFeedback service env a b c d w))
  /\ bounded_path (apiKey (client (VITE_GEMINI_API_KEY env)))
                  (translateRequest a lang) w
                  (snd (translateText service env a lang w))
  /\ bounded_path (apiKey (client (VITE_GEMINI_API_KEY env)))
                  (summaryRequest a b (default_to concise type)) w
                  (snd (getAiSummary service env a b type w))
  /\ bounded_path (apiKey (client (VITE_GEMINI_API_KEY env)))
                  (consistencyRequest a b c) w
                  (snd (checkAnswerConsistency service env a b c w)).
Proof.
  intros Hkey.
  unfold getAiFeedback, translateText, getAiSummary, checkAnswerConsistency.
  rewrite Hkey. unfold try_catch, bind, lift, ret, console_error.
  repeat split.
  - destruct (await_call_shape (client (VITE_GEMINI_API_KEY env))
                (feedbackRequest a b c d) w) as (k & Hk & Hw).
    destruct (await_call _ _ _ w) as [[response | e] w1]; cbn [snd] in *;
      subst w1.
    + apply (bounded_path_intro _ _ k []); cbn [calls log]; auto.
      rewrite app_nil_r. reflexivity.
    + apply (bounded_path_intro _ _ k [EvError "AI Error:" (Some e)]);
        cbn [calls log emit]; auto.
      rewrite <- !app_assoc. reflexivity.
  - destruct (await_call_shape (client (VITE_GEMINI_API_KEY env))
                (translateRequest a lang) w) as (k & Hk & Hw).
    destruct (await_call _ _ _ w) as [[response | e] w1]; cbn [snd] in *;
      subst w1.
    + apply (bounded_path_intro _ _ k []); cbn [calls log]; auto.
      rewrite app_nil_r. reflexivity.
    + apply (bounded_path_intro _ _ k [EvError "Translation Error:" (Some e)]);
        cbn [calls log emit]; auto.
      rewrite <- !app_assoc. reflexivity.
  - destruct (await_call_shape (client (VITE_GEMINI_API_KEY env))
                (summaryRequest a b (default_to concise type)) w)
      as (k & Hk & Hw).
    destruct type as [t |]; cbn [default_to] in *;
      destruct (await_call _ _ _ w) as [[response | e] w1]; cbn [snd] in *;
      subst w1;
      try (apply (bounded_path_intro _ _ k []); cbn [calls log]; auto;
           rewrite app_nil_r; reflexivity);
      (apply (bounded_path_intro _ _ k [EvError "AI Summary Error:" (Some e)]);
       cbn [calls log emit]; auto; rewrite <- !app_assoc; reflexivity).
  - destruct (await_call_shape (client (VITE_GEMINI_API_KEY env))
                (consistencyRequest a b c) w) as (k & Hk & Hw).
    destruct (await_call _ _ _ w) as [[response | e] w1]; cbn [snd] in *;
      subst w1.
    + destruct (JSON_parse (text response)) as [v | e]; cbn [snd].
      * apply (bounded_path_intro _ _ k []); cbn [calls log]; auto.
        rewrite app_nil_r. reflexivity.
      * apply (bounded_path_intro
                 _ _ k [EvError "Consistency Check Error:" (Some e)]);
          cbn [calls log emit]; auto.
        rewrite <- !app_assoc. reflexivity.
    + apply (bounded_path_intro
               _ _ k [EvError "Consistency Check Error:" (Some e)]);
        cbn [calls log emit]; auto.
      rewrite <- !app_assoc. reflexivity.
Qed.



(** The consistency result comes back as the service wrote it: when the
    service answers with the JSON text of [{ consistent: b }], with or
    without a [reason], whatever the characters of the reason,
    [checkAnswerConsistency] returns exactly that object. *)
Theorem consistency_result_returned (a b c : string) (verdict : bool)
  (reason : option string) (t : string) (w : World) :
  key_missing (VITE_GEMINI_API_KEY env) = false ->
  stringify (consistency_result verdict reason) = Some t ->
  (forall key r, service (calls w) key r = Resolve (mkResponse (Some t))) ->
  fst (checkAnswerConsistency service env a b c w)
  = Ok (consistency_result verdict reason).
Proof.
  intros Hkey Ht Hout. unfold checkAnswerConsistency. rewrite Hkey.
  unfold try_catch, bind, lift.
  rewrite (await_call_answered _ _ _ (mkResponse (Some t)) w) by apply Hout.
  unfold JSON_parse. cbn [text fst snd].
  rewrite (parse_consistency_result _ _ _ Ht). reflexivity.
Qed.

(** Whatever plain JSON value the service writes, nested as it may be, is what
    [checkAnswerConsistency] returns: the text is parsed and the value handed
    over as it is. *)
Theorem plain_answer_returned (a b c : string) (v : Val) (t : string)
  (w : World) :
  key_missing (VITE_GEMINI_API_KEY env) = false ->
  plain v = true ->
  stringify v = Some t ->
  (forall key r, service (calls w) key r = Resolve (mkResponse (Some t))) ->
  fst (checkAnswerConsistency service env a b c w) = Ok v.
Proof.
  intros Hkey Hplain Ht Hout. unfold checkAnswerConsistency. rewrite Hkey.
  unfold try_catch, bind, lift.
  rewrite (await_call_answered _ _ _ (mkResponse (Some t)) w) by apply Hout.
  unfold JSON_parse. cbn [text fst snd].
  rewrite (parse_stringify v t Hplain Ht). reflexivity.
Qed.

(** C9.  For every answer and language name the instructions of
    ['concise'], ['detailed'] and ['keypoints'] differ from one another; a
    call of [getAiSummary] without [type] is a call with ['concise']; and,
    given a key, every request [getAiSummary] sends (it sends at least one)
    carries the instruction of its type. *)
Theorem summary_instructions_distinct (answer targetLangName : string)
  (type : option SummaryType) (w : World) :
  (summaryInstruction concise targetLangName
   <> summaryInstruction detailed targetLangName
   /\ summaryInstruction concise targetLangName
      <> summaryInstruction keypoints targetLangName
   /\ summaryInstruction detailed targetLangName
      <> summaryInstruction keypoints targetLangName)
  /\ getAiSummary service env answer targetLangName None w
     = getAiSummary service env answer targetLangName (Some concise) w
  /\ (key_missing (VITE_GEMINI_API_KEY env) = false ->
      exists (l : list Event) (n : nat),
        log (snd (getAiSummary service env answer targetLangName type w))
        = (log w ++ l)%list
        /\ (1 <= n)%nat
        /\ map (fun sent => systemInstruction (config (snd sent)))
               (requests_of l)
           = repeat (summaryInstruction (default_to concise type)
                                        targetLangName) n).
Proof.
  split; [| split].
  - cbn. repeat split; intros H; discriminate H.
  - reflexivity.
  - intros Hkey.
    destruct (summary_path answer targetLangName type w Hkey)
      as (l & n & Hlog & Hn & Hreq & _ & _).
    exists l, n. split; [exact Hlog |]. split; [lia |].
    rewrite Hreq, map_repeat. reflexivity.
Qed.

End OperationEdges.

Lemma translate_when_service_down_witness :
  fst (translateText (failing network_error) with_key "Q" vi fresh) = Ok Null
  /\ calls (snd (translateText (failing network_error) with_key "Q" vi
                               fresh)) = 1%nat
  /\ delays_of (log (snd (translateText (failing network_error) with_key
                                        "Q" vi fresh))) = [].
Proof.
  apply (translate_when_service_down (failing network_error) with_key
           "Q" vi network_error fresh).
  - reflexivity.
  - reflexivity.
  - exists (Bool false). split; reflexivity.
Defined.

Lemma summary_instructions_distinct_witness :
  exists (l : list Event) (n : nat),
    log (snd (getAiSummary (failing quota_error) with_key "A" "English"
                           (Some keypoints) fresh))
    = ([] ++ l)%list
    /\ (1 <= n)%nat
    /\ map (fun sent => systemInstruction (config (snd sent)))
           (requests_of l)
       = repeat "You are a key points extraction tool. List the most important 3 to 5 key points. You MUST respond entirely in English." n.
Proof.
  apply (proj2 (proj2 (summary_instructions_distinct
                         (failing quota_error) with_key "A" "English"
                         (Some keypoints) fresh))).
  reflexivity.
Defined.


Lemma summary_null_or_text_witness :
  getAiSummary (answering (Some "Short.")) with_key "A" "English" None fresh
  = (Ok (Str "Short."),
     mkWorld 1 [EvRequest "test-key" (summaryRequest "A" "English" concise)])
  /\ getAiSummary (failing network_error) with_key "A" "English" None fresh
     = (Ok Null,
        mkWorld 1 [EvRequest "test-key" (summaryRequest "A" "English" concise);
                   EvError "AI Summary Error:" (Some network_error)]).
Proof.
  split.
  - destruct (summary_null_or_text (answering (Some "Short.")) with_key
                "A" "English" None fresh eq_refl) as (k & _ & Hall & Hres).
    destruct k as [| k]; [exact Hres |].
    destruct (Hall 0%nat (Nat.lt_0_succ k)) as (e & Hout & _).
    discriminate Hout.
  - destruct (summary_null_or_text (failing network_error) with_key
                "A" "English" None fresh eq_refl) as (k & _ & Hall & Hres).
    destruct k as [| k]; [exact Hres |].
    destruct (Hall 0%nat (Nat.lt_0_succ k))
      as (e & Hout & verdict & Hverdict & Htruthy).
    injection Hout as <-. injection Hverdict as <-. discriminate Htruthy.
Defined.

Lemma operations_resend_one_request_witness :
  bounded_path "test-key" (feedbackRequest "Q" "M" "F" "English") fresh
    (snd (getAiFeedback (failing quota_error) with_key "Q" "M" "F" "English"
                        fresh))
  /\ bounded_path "test-key" (translateRequest "Q" vi) fresh
       (snd (translateText (failing quota_error) with_key "Q" vi fresh))
  /\ bounded_path "test-key" (summaryRequest "Q" "M" detailed) fresh
       (snd (getAiSummary (failing quota_error) with_key "Q" "M"
                          (Some detailed) fresh))
  /\ bounded_path "test-key" (consistencyRequest "Q" "M" "F") fresh
       (snd (checkAnswerConsistency (failing quota_error) with_key
                                    "Q" "M" "F" fresh)).
Proof.
  apply (operations_resend_one_request (failing quota_error) with_key
           "Q" "M" "F" "English" vi (Some detailed) fresh).
  reflexivity.
Defined.



Lemma consistency_result_returned_witness :
  fst (checkAnswerConsistency (answering (Some verdict_text)) with_key
                              "Where did you meet?" "Taipei" "Hanoi" fresh)
  = Ok (consistency_result false (Some "dates differ")).
Proof.
  apply (consistency_result_returned (answering (Some verdict_text)) with_key
           "Where did you meet?" "Taipei" "Hanoi" false
           (Some "dates differ") verdict_text fresh).
  - reflexivity.
  - reflexivity.
  - reflexivity.
Defined.

Lemma plain_answer_returned_witness :
  fst (checkAnswerConsistency
         (answering (stringify nested_answer)) with_key "Q" "M" "F" fresh)
  = Ok nested_answer.
Proof.
  apply (plain_answer_returned (answering (stringify nested_answer)) with_key
           "Q" "M" "F" nested_answer
           (element stringify nested_answer) fresh).
  - reflexivity.
  - reflexivity.
  - reflexivity.
  - reflexivity.
Defined.

(* ===================================================================== *)
(** ** What the requests carry *)
(* ===================================================================== *)

Lemma contains_here (a x b : string) : contains (a ++ x ++ b) x.
Proof. exists a, b. reflexivity. Qed.

Lemma contains_end (a x : string) : contains (a ++ x) x.
Proof. exists a, "". rewrite append_nil_r. reflexivity. Qed.

Lemma contains_skip (a s x : string) : contains s x -> contains (a ++ s) x.
Proof.
  intros H. rewrite <- (append_nil_r s). apply contains_inside, H.
Qed.

(** The inputs of an operation go into its request as they are: question and
    answers into the contents of the feedback and consistency requests, the
    answer into the contents of the summary request, and the text to
    translate is the whole contents of the translation request.  The
    feedback and summary instructions name the target language, whatever the
    summary type. *)
Theorem requests_carry_inputs (question maleAnswer femaleAnswer
  targetLangName : string) (targetLang : Lang) (type : SummaryType) :
  (contains (contents (feedbackRequest question maleAnswer femaleAnswer
                                       targetLangName)) question
   /\ contains (contents (feedbackRequest question maleAnswer femaleAnswer
                                          targetLangName)) maleAnswer
   /\ contains (contents (feedbackRequest question maleAnswer femaleAnswer
                                          targetLangName)) femaleAnswer
   /\ contains (systemInstruction
                  (config (feedbackRequest question maleAnswer femaleAnswer
                                           targetLangName))) targetLangName)
  /\ contents (translateRequest question targetLang) = question
  /\ (contains (contents (summaryRequest question targetLangName type))
               question
      /\ contains (systemInstruction
                     (config (summaryRequest question targetLangName type)))
                  targetLangName)
  /\ (contains (contents (consistencyRequest question maleAnswer
                                             femaleAnswer)) question
      /\ contains (contents (consistencyRequest question maleAnswer
                                                femaleAnswer)) maleAnswer
      /\ contains (contents (consistencyRequest question maleAnswer
                                                femaleAnswer)) femaleAnswer).
Proof.
  unfold feedbackRequest, summaryRequest, consistencyRequest,
    translateRequest, feedbackPrompt, feedbackInstruction, summaryPrompt,
    consistencyPrompt.
  cbn [contents config systemInstruction].
  repeat split;
    try (repeat (apply contains_here || apply contains_end
                 || apply contains_skip); fail).
  destruct type; unfold summaryInstruction; cbn [SummaryType_eqb];
    apply contains_here.
Qed.
